(** * Content indexing and retrieval of the chat component

    A shallow embedding of the indexing / retrieval core of the [Chat]
    component ([extractBasicKeywords], [findRelevantIndexEntries],
    [buildEnhancedContext], [parseAndIndexContent], [handleSendMessage],
    [clearIndex]) together with the JavaScript primitives these functions
    call, and the properties of that core.

    Strings.  A JavaScript string is a sequence of UTF-16 code units.  The
    development reads a [string] as a sequence of code units below 256
    (the Latin-1 block); on that block the primitives below are exactly
    the ECMAScript ones:
    - [String.prototype.toLowerCase] maps [A-Z] and the capital letters
      U+00C0..U+00DE (without U+00D7) to the letter 32 places further;
    - the class [\s] (and the set removed by [trim]) is U+0009..U+000D,
      U+0020 and U+00A0;
    - the class [\w] is [A-Za-z0-9_].
    Code units from 256 on are outside the model. *)

From Stdlib Require Import String Ascii List ZArith NArith Lia Bool Arith.
From Stdlib Require Import Permutation Sorted DecimalString.
Import ListNotations.
Open Scope string_scope.
Open Scope list_scope.

(* ================================================================== *)
(** ** JavaScript string primitives                                    *)
(* ================================================================== *)

Module JS.

Definition code (c : ascii) : nat := nat_of_ascii c.

Definition between (lo hi n : nat) : bool := Nat.leb lo n && Nat.leb n hi.

(** The class [\s] of a regular expression, which is also the set of
    code units [String.prototype.trim] removes. *)
Definition isWhiteSpace (c : ascii) : bool :=
  between 9 13 (code c) || Nat.eqb (code c) 32 || Nat.eqb (code c) 160.

(** The class [\w]. *)
Definition isWordChar (c : ascii) : bool :=
  between 48 57 (code c) || between 65 90 (code c)
  || between 97 122 (code c) || Nat.eqb (code c) 95.

Definition isDigit (c : ascii) : bool := between 48 57 (code c).

Definition lowerChar (c : ascii) : ascii :=
  if between 65 90 (code c)
     || (between 192 222 (code c) && negb (Nat.eqb (code c) 215))
  then ascii_of_nat (code c + 32) else c.

(** [Canonicalize] of a case-insensitive regular expression without the
    [u] flag: the upper-case mapping, kept only when it is one code unit
    and does not turn a code unit from 128 on into one below 128.  U+00B5
    and U+00FF map to code units outside the block; they stay as they
    are here, which changes no comparison with a code unit of the block. *)
Definition canonicalize (c : ascii) : ascii :=
  if between 97 122 (code c)
     || (between 224 254 (code c) && negb (Nat.eqb (code c) 247))
  then ascii_of_nat (code c - 32) else c.

Fixpoint mapChars (f : ascii -> ascii) (s : string) : string :=
  match s with
  | EmptyString => EmptyString
  | String c s' => String (f c) (mapChars f s')
  end.

(** [s.toLowerCase()] *)
Definition toLowerCase (s : string) : string := mapChars lowerChar s.

(** [s.includes(t)] *)
Fixpoint includes (s t : string) : bool :=
  String.prefix t s
  || match s with
     | EmptyString => false
     | String _ s' => includes s' t
     end.

(** [s.split(/\s+/)]: the pieces between the maximal runs of white space.
    [splitTok cur s] reads [s] with [cur] the piece read so far;
    [splitSep s] reads [s] inside a run of white space.  A run at the start
    or at the end of the string leaves an empty piece there, and the empty
    string splits into one empty piece. *)
Fixpoint splitTok (cur : string) (s : string) : list string :=
  match s with
  | EmptyString => [cur]
  | String c s' =>
      if isWhiteSpace c then cur :: splitSep s'
      else splitTok (cur ++ String c EmptyString)%string s'
  end
with splitSep (s : string) : list string :=
  match s with
  | EmptyString => [EmptyString]
  | String c s' =>
      if isWhiteSpace c then splitSep s'
      else splitTok (String c EmptyString) s'
  end.

Definition split_ws (s : string) : list string := splitTok EmptyString s.

(** [s.replace(/[^\w\s]/g, ' ')] *)
Definition replaceNonWord (s : string) : string :=
  mapChars (fun c => if isWordChar c || isWhiteSpace c then c else " "%char) s.

Fixpoint trimStart (s : string) : string :=
  match s with
  | EmptyString => EmptyString
  | String c s' => if isWhiteSpace c then trimStart s' else s
  end.

(** [trimEnd] keeps a code unit when it is not white space or when
    something is kept after it. *)
Fixpoint trimEnd (s : string) : string :=
  match s with
  | EmptyString => EmptyString
  | String c s' =>
      match trimEnd s' with
      | EmptyString => if isWhiteSpace c then EmptyString
                       else String c EmptyString
      | t => String c t
      end
  end.

(** [s.trim()] *)
Definition trim (s : string) : string := trimEnd (trimStart s).

(** [s.substring(0, n)] *)
Definition substring0 (n : nat) (s : string) : string := String.substring 0 n s.

(** [a.join(sep)] on an array of strings. *)
Fixpoint join (sep : string) (l : list string) : string :=
  match l with
  | [] => EmptyString
  | [x] => x
  | x :: l' => (x ++ sep ++ join sep l')%string
  end.

(** The string of a non-negative integer, as a template literal prints it. *)
Definition numberToString (n : N) : string :=
  NilEmpty.string_of_uint (N.to_uint n).

(** Case-insensitive match of the literal [p] at the start of [s], as the
    regular expression [/^p/i] does it. *)
Fixpoint matchPrefixCI (p s : string) : option string :=
  match p, s with
  | EmptyString, _ => Some s
  | String a p', String b s' =>
      if Ascii.eqb (canonicalize a) (canonicalize b) then matchPrefixCI p' s'
      else None
  | String _ _, EmptyString => None
  end.

(** [a.slice(0, n)] *)
Definition slice0 {A : Type} (n : nat) (l : list A) : list A := firstn n l.

(** A number as an arithmetic expression produces it: a value or [NaN]. *)
Inductive number := Num (z : Z) | NaN.

(** [a.sort(cmp)].  ECMAScript (from the 2019 edition on) requires a
    stable sort: [a] stays before [b] unless [cmp a b > 0]; a comparator
    result [NaN] counts as [0].  For a consistent comparator every stable
    sort gives the same array, here computed by insertion from the right. *)
Definition comesAfter {A : Type} (cmp : A -> A -> number) (a b : A) : bool :=
  match cmp a b with
  | Num z => (0 <? z)%Z
  | NaN => false
  end.

Fixpoint sortInsert {A : Type} (cmp : A -> A -> number) (x : A) (l : list A) : list A :=
  match l with
  | [] => [x]
  | y :: l' => if comesAfter cmp x y then y :: sortInsert cmp x l' else x :: l
  end.

Fixpoint sort {A : Type} (cmp : A -> A -> number) (l : list A) : list A :=
  match l with
  | [] => []
  | x :: l' => sortInsert cmp x (sort cmp l')
  end.

End JS.

(* ================================================================== *)
(** ** The frequency table: an object used as a map                    *)
(* ================================================================== *)

(** [wordFreq] is an ordinary object created by [{}].  Its own properties
    are kept in creation order; reading a name it does not own goes to
    [Object.prototype].  The words stored are made of [a-z0-9_], so the
    only inherited names they can hit are [constructor] (a function) and
    [__proto__] (an accessor whose setter ignores a value that is neither
    an object nor [null]). *)
Module Obj.

(** The values the table holds: a count, or the text an inherited object
    turned into when [1] was added to it.  That text is never a numeric
    literal, and nothing but that is used of it. *)
Inductive value := VNum (n : Z) | VText.

Definition t := list (string * value).

Fixpoint own (o : t) (k : string) : option value :=
  match o with
  | [] => None
  | (k', v) :: o' => if String.eqb k' k then Some v else own o' k
  end.

Definition inherited (k : string) : bool :=
  String.eqb k "constructor" || String.eqb k "__proto__".

(** [(o[k] || 0) + 1]: an own count is incremented; a text (own, or made
    from the inherited object) gets ["1"] appended; a name found nowhere
    reads [undefined], replaced by [0]. *)
Definition bump (o : t) (k : string) : value :=
  match own o k with
  | Some (VNum n) => VNum (n + 1)
  | Some VText => VText
  | None => if inherited k then VText else VNum 1
  end.

Fixpoint update (o : t) (k : string) (v : value) : t :=
  match o with
  | [] => [(k, v)]
  | (k', v') :: o' =>
      if String.eqb k' k then (k', v) :: o' else (k', v') :: update o' k v
  end.

(** [o[k] = v] for a value [v] that is a number or a string. *)
Definition set (o : t) (k : string) (v : value) : t :=
  if String.eqb k "__proto__" then o else update o k v.

Fixpoint digitsValue (acc : N) (s : string) : option N :=
  match s with
  | EmptyString => Some acc
  | String c s' =>
      if JS.isDigit c
      then digitsValue (10 * acc + N.of_nat (JS.code c - 48)) s'
      else None
  end.

(** An array index: the canonical decimal numeral of an integer from [0]
    to [2^32 - 2]. *)
Definition arrayIndex (k : string) : option N :=
  match k with
  | EmptyString => None
  | String c rest =>
      if Ascii.eqb c "0"%char && negb (String.eqb rest EmptyString) then None
      else match digitsValue 0 k with
           | Some n => if (n <? 4294967295)%N then Some n else None
           | None => None
           end
  end.

Definition isIndexKey (p : string * value) : bool :=
  match arrayIndex (fst p) with Some _ => true | None => false end.

Definition indexOf (p : string * value) : N :=
  match arrayIndex (fst p) with Some n => n | None => 0%N end.

Fixpoint insertByIndex (p : string * value) (l : t) : t :=
  match l with
  | [] => [p]
  | q :: l' => if (indexOf p <=? indexOf q)%N then p :: l
               else q :: insertByIndex p l'
  end.

(** [Object.entries(o)]: the array-index names in ascending numeric
    order, then the other names in creation order. *)
Definition entries (o : t) : list (string * value) :=
  fold_right insertByIndex [] (filter isIndexKey o)
  ++ filter (fun p => negb (isIndexKey p)) o.

(** [b - a] on two table values. *)
Definition minus (b a : value) : JS.number :=
  match b, a with
  | VNum y, VNum x => JS.Num (y - x)
  | _, _ => JS.NaN
  end.

End Obj.

(* ================================================================== *)
(** ** Data model                                                      *)
(* ================================================================== *)

(** [interface IndexEntry]; the keywords are strings, as it declares. *)
Record IndexEntry := mkIndexEntry {
  id : string;
  content : string;
  keywords : list string;
  timestamp : Z;
  relevanceScore : option Z   (* an optional field: [None] when absent *)
}.

(** [{ ...entry, relevanceScore }] *)
Definition withScore (entry : IndexEntry) (score : Z) : IndexEntry :=
  {| id := id entry; content := content entry; keywords := keywords entry;
     timestamp := timestamp entry; relevanceScore := Some score |}.

(** [entry.relevanceScore || 0] *)
Definition scoreOrZero (entry : IndexEntry) : Z :=
  match relevanceScore entry with Some z => z | None => 0%Z end.

(** [entry.relevanceScore! > 0]; an absent score compares false. *)
Definition scorePositive (entry : IndexEntry) : bool :=
  match relevanceScore entry with Some z => (0 <? z)%Z | None => false end.

(* ================================================================== *)
(** ** Fallback extraction and retrieval                               *)
(* ================================================================== *)

(** The words of [extractBasicKeywords]: lower-cased, every code unit
    outside [\w] and [\s] replaced by a space, split at white space,
    words of more than three code units kept. *)
Definition longWords (text : string) : list string :=
  filter (fun word => Nat.ltb 3 (String.length word))
         (JS.split_ws (JS.replaceNonWord (JS.toLowerCase text))).

(** The table after [words.forEach(word => wordFreq[word] = ...)]. *)
Definition countWords (words : list string) : Obj.t :=
  fold_left (fun wordFreq word => Obj.set wordFreq word (Obj.bump wordFreq word))
            words [].

(** The comparator [([, a], [, b]) => b - a].  It is [NaN] on a text, so
    a table that owns [constructor] is sorted with a comparator that is
    not consistent, and ECMAScript then leaves the order to the
    implementation; [JS.sort] fixes one such order, and what is proved
    about the order of the keywords leaves that table out. *)
Definition byFrequency (x y : string * Obj.value) : JS.number :=
  Obj.minus (snd y) (snd x).

(** [extractBasicKeywords(text)].  When [constructor] is one of the words,
    the comparator is not consistent and the engine is free in the order
    of the result and, with more than ten names, in which ten it keeps;
    the list computed here is then one outcome among those, with the same
    length and drawn from the same names.  What is proved about order or
    about which names are kept assumes that [constructor] is not a word. *)
Definition extractBasicKeywords (text : string) : list string :=
  let words := longWords text in
  let wordFreq := countWords words in
  map fst (JS.slice0 10 (JS.sort byFrequency (Obj.entries wordFreq))).

(** [queryWords.filter(word => k.includes(word) || word.includes(k))]
    with [k] the lower-cased keyword. *)
Definition wordMatches (keyword word : string) : bool :=
  JS.includes (JS.toLowerCase keyword) word
  || JS.includes word (JS.toLowerCase keyword).

Definition queryWordsOf (query : string) : list string :=
  JS.split_ws (JS.toLowerCase query).

(** The [reduce] over the keywords of one entry. *)
Definition relevance (queryWords : list string) (entry : IndexEntry) : Z :=
  fold_left (fun score keyword =>
               (score + Z.of_nat (List.length
                         (filter (wordMatches keyword) queryWords)))%Z)
            (keywords entry) 0%Z.

Definition byScore (a b : IndexEntry) : JS.number :=
  JS.Num (scoreOrZero b - scoreOrZero a).

Definition findRelevantIndexEntries
    (documentIndex : list IndexEntry) (query : string) : list IndexEntry :=
  let queryWords := queryWordsOf query in
  JS.slice0 5
    (JS.sort byScore
       (filter scorePositive
          (map (fun entry => withScore entry (relevance queryWords entry))
               documentIndex))).

(* ================================================================== *)
(** ** Context builder                                                 *)
(* ================================================================== *)

Definition nl : string := String (ascii_of_nat 10) EmptyString.

(** The lines of a template literal, joined by line feeds. *)
Definition unlines (l : list string) : string := JS.join nl l.

(** The template up to [${documentIndex.length}] and after it. *)
Definition preambleHead : string :=
  unlines
    [ "You are an Autonomous Desktop Agent with advanced document analysis and index parsing capabilities.";
      "";
      "CORE CAPABILITIES:";
      "1. Document Analysis & Index Parsing";
      "2. Intelligent Information Retrieval";
      "3. Context-Aware Response Generation";
      "4. Multi-modal Content Processing";
      "";
      "CURRENT SESSION CONTEXT:";
      "- Active Index Entries: " ].

Definition preambleTail : string :=
  unlines
    [ "";
      "- Query Processing Mode: Enhanced Semantic Search";
      "- Relevance Threshold: High Priority";
      "";
      "" ].

Definition contextPreamble (indexSize : N) : string :=
  (preambleHead ++ JS.numberToString indexSize ++ preambleTail)%string.

Definition entryLine (entry : IndexEntry) : string :=
  ("- [" ++ id entry ++ "] " ++ JS.substring0 200 (content entry)
   ++ "... (Keywords: " ++ JS.join ", " (keywords entry) ++ ")")%string.

Definition relevantBlock (relevantEntries : list IndexEntry) : string :=
  unlines
    [ "RELEVANT INDEXED CONTENT:";
      JS.join nl (map entryLine relevantEntries);
      "";
      "" ].

Definition contextInstructions : string :=
  unlines
    [ "PROCESSING INSTRUCTIONS:";
      "1. Analyze the user query for intent and context requirements";
      "2. Cross-reference with indexed content when applicable";
      "3. Provide comprehensive, contextually-aware responses";
      "4. Suggest follow-up actions or related information when relevant";
      "5. Maintain conversation continuity and context awareness";
      "";
      "USER QUERY: " ].

Definition contextClosing : string :=
  unlines
    [ "";
      "";
      "Please provide a detailed, contextually-aware response that leverages any relevant indexed content and demonstrates advanced reasoning capabilities." ].

Definition buildEnhancedContext
    (documentIndex : list IndexEntry) (userQuery : string) : string :=
  let relevantEntries := findRelevantIndexEntries documentIndex userQuery in
  let context := contextPreamble (N.of_nat (List.length documentIndex)) in
  let context :=
    if Nat.ltb 0 (List.length relevantEntries)
    then (context ++ relevantBlock relevantEntries)%string
    else context in
  (context ++ contextInstructions ++ userQuery ++ contextClosing)%string.

(* ================================================================== *)
(** ** Component state and effects                                     *)
(* ================================================================== *)

(** The text of a chat message.  The notices of indexing and of clearing
    carry pictographs, which are outside the strings modelled here, so
    these two are kept as constructors with the values their templates
    interpolate; every other text is a string. *)
Inductive MessageText :=
| Plain (s : string)
| IndexedNotice (keywordCount : nat) (summary : string)
| ClearedNotice.

(** The text shown when the model answers with nothing. *)
Definition noResponseText : string :=
  "No response received from the AI system.".

(** The text shown when the completion request fails. *)
Definition completionErrorText : string :=
  "Error communicating with the AI system. Please check your API key or try again.".

Module Message.
Record t := mk {
  id : Z;
  text : MessageText;
  isUser : bool;
  timestamp : Z;
  context : option string
}.
End Message.

(** The state of the component, as [useState] holds it. *)
Record ChatState := mkChatState {
  messages : list Message.t;
  inputValue : string;
  apiKey : option string;
  documentIndex : list IndexEntry;
  isIndexing : bool
}.

(** [!apiKey]: [null] and the empty string are falsy. *)
Definition noApiKey (st : ChatState) : bool :=
  match apiKey st with
  | None => true
  | Some k => String.eqb k EmptyString
  end.

(** The field [summary] of the parsed answer, which can be any JSON
    value: falsy or absent; a truthy value with the text the template
    literal turns it into (the string itself; the empty text for an empty
    array); or a truthy value whose conversion to a string throws (an
    object whose own [toString] is not callable). *)
Inductive Summary :=
| NoSummary
| SummaryText (text : string)
| Unprintable.

(** What the analysis asks the model for; the three lists are the fields
    after [|| []] and spreading, their elements strings as
    [IndexEntry.keywords] declares them. *)
Record Analysis := mkAnalysis {
  analysisKeywords : list string;
  analysisThemes : list string;
  analysisEntities : list string;
  analysisSummary : Summary
}.

(** The collaborators of one interaction.
    - [createCompletion prompt]: the analysis request, from [new Groq] to
      [choices[0]?.message?.content]; [None] when any of it throws or the
      promise rejects, [Some None] when there is no content.
    - [parseAnalysis text]: [JSON.parse(text)] and the reads of its fields
      in the entry literal; [None] when one of them throws (the text is
      not JSON, the value is [null], a field cannot be spread).
    - [streamCompletion system user]: the streamed answer with its chunks
      concatenated; [None] when the request throws.
    - [dateNow], [randomSuffix]: [Date.now()] and
      [Math.random().toString(36).substr(2, 9)]. *)
Record World := mkWorld {
  createCompletion : string -> option (option string);
  parseAnalysis : string -> option Analysis;
  streamCompletion : string -> string -> option string;
  dateNow : N;
  randomSuffix : string
}.

Inductive exn := CompletionError | AnalysisError | ConversionError.

Inductive outcome (A : Type) :=
| Done (a : A)
| Thrown (e : exn).
Arguments Done {A} a.
Arguments Thrown {A} e.

(** A computation over the state store that returns or throws. *)
Definition M (A : Type) : Type := ChatState -> outcome A * ChatState.

Definition ret {A} (a : A) : M A := fun st => (Done a, st).

Definition throw {A} (e : exn) : M A := fun st => (Thrown e, st).

Definition bind {A B} (m : M A) (k : A -> M B) : M B :=
  fun st =>
    match m st with
    | (Done a, st') => k a st'
    | (Thrown e, st') => (Thrown e, st')
    end.

Notation "x <- m ;; k" := (bind m (fun x => k))
  (at level 61, m at next level, right associativity).
Notation "m ;;; k" := (bind m (fun _ => k))
  (at level 61, right associativity).

(** [try { body } catch (e) { handler }] *)
Definition tryCatch {A} (body : M A) (handler : exn -> M A) : M A :=
  fun st =>
    match body st with
    | (Done a, st') => (Done a, st')
    | (Thrown e, st') => handler e st'
    end.

(** [try { body } finally { fin }] with a [fin] that does not throw. *)
Definition tryFinally {A} (body : M A) (fin : M unit) : M A :=
  fun st =>
    match body st with
    | (r, st') => (r, snd (fin st'))
    end.

Definition setMessages (f : list Message.t -> list Message.t) : M unit :=
  fun st => (Done tt,
             {| messages := f (messages st); inputValue := inputValue st;
                apiKey := apiKey st; documentIndex := documentIndex st;
                isIndexing := isIndexing st |}).

Definition setDocumentIndex (f : list IndexEntry -> list IndexEntry) : M unit :=
  fun st => (Done tt,
             {| messages := messages st; inputValue := inputValue st;
                apiKey := apiKey st; documentIndex := f (documentIndex st);
                isIndexing := isIndexing st |}).

Definition setIsIndexing (b : bool) : M unit :=
  fun st => (Done tt,
             {| messages := messages st; inputValue := inputValue st;
                apiKey := apiKey st; documentIndex := documentIndex st;
                isIndexing := b |}).

Definition setInputValue (s : string) : M unit :=
  fun st => (Done tt,
             {| messages := messages st; inputValue := s;
                apiKey := apiKey st; documentIndex := documentIndex st;
                isIndexing := isIndexing st |}).

(** A collaborator call: its answer, or the exception it raises. *)
Definition await {A} (e : exn) (r : option A) : M A :=
  match r with
  | Some a => ret a
  | None => throw e
  end.

(* ================================================================== *)
(** ** Indexing                                                        *)
(* ================================================================== *)

Definition quoted (s : string) : string :=
  (String (ascii_of_nat 34) EmptyString ++ s
   ++ String (ascii_of_nat 34) EmptyString)%string.

Definition analysisPrompt (content : string) : string :=
  unlines
    [ "Analyze the following content and extract:";
      "1. Key concepts and topics (max 10 keywords)";
      "2. Main themes or subjects";
      "3. Important entities (people, places, organizations, etc.)";
      "4. Content summary (2-3 sentences)";
      "";
      "Content to analyze:";
      content;
      "";
      "Respond in JSON format:";
      "{";
      ("  " ++ quoted "keywords" ++ ": [" ++ quoted "keyword1" ++ ", "
       ++ quoted "keyword2" ++ ", ...],")%string;
      ("  " ++ quoted "themes" ++ ": [" ++ quoted "theme1" ++ ", "
       ++ quoted "theme2" ++ ", ...],")%string;
      ("  " ++ quoted "entities" ++ ": [" ++ quoted "entity1" ++ ", "
       ++ quoted "entity2" ++ ", ...],")%string;
      ("  " ++ quoted "summary" ++ ": "
       ++ quoted "Brief summary of the content")%string;
      "}" ].

(** [`idx_${Date.now()}_${Math.random().toString(36).substr(2, 9)}`] *)
Definition newEntryId (w : World) : string :=
  ("idx_" ++ JS.numberToString (dateNow w) ++ "_" ++ randomSuffix w)%string.

Definition orEmpty (s : option string) : string :=
  match s with Some t => t | None => EmptyString end.

(** [`${analysis.summary || 'Content processed and indexed.'}`]: the text
    interpolated into the notice, [None] when the conversion throws. *)
Definition summaryText (analysis : Analysis) : option string :=
  match analysisSummary analysis with
  | NoSummary => Some "Content processed and indexed."
  | SummaryText t => Some t
  | Unprintable => None
  end.

(** [parseAndIndexContent(content)], run from a render whose state is
    [render] (the closure reads [apiKey] there).  The readings of the
    clock during one call are taken as one instant.  The template of the
    notice is evaluated after the new entry is handed to
    [setDocumentIndex]; when it throws, the handler of the inner [try]
    runs with that update already made. *)
Definition parseAndIndexContent
    (w : World) (render : ChatState) (content : string) : M unit :=
  setIsIndexing true ;;;
  tryFinally
    (tryCatch
       (if noApiKey render then ret tt
        else
          analysisResponse <-
            await CompletionError (createCompletion w (analysisPrompt content)) ;;
          let analysisText := orEmpty analysisResponse in
          tryCatch
            (analysis <- await AnalysisError (parseAnalysis w analysisText) ;;
             let newEntry :=
               {| id := newEntryId w;
                  content := content;
                  keywords := analysisKeywords analysis
                              ++ analysisThemes analysis
                              ++ analysisEntities analysis;
                  timestamp := Z.of_N (dateNow w);
                  relevanceScore := None |} in
             setDocumentIndex (fun prev => prev ++ [newEntry]) ;;;
             summary <- await ConversionError (summaryText analysis) ;;
             let indexMessage :=
               {| Message.id := Z.of_N (dateNow w);
                  Message.text :=
                    IndexedNotice (List.length (keywords newEntry)) summary;
                  Message.isUser := false;
                  Message.timestamp := Z.of_N (dateNow w);
                  Message.context := Some "system_indexing" |} in
             setMessages (fun prev => prev ++ [indexMessage]))
            (fun parseError =>
               let basicEntry :=
                 {| id := newEntryId w;
                    content := content;
                    keywords := extractBasicKeywords content;
                    timestamp := Z.of_N (dateNow w);
                    relevanceScore := None |} in
               setDocumentIndex (fun prev => prev ++ [basicEntry])))
       (fun error => ret tt))
    (setIsIndexing false).

(** [inputValue.replace(/^(index this:|analyze this:)/i, '')] *)
Definition stripTrigger (inputValue : string) : string :=
  match JS.matchPrefixCI "index this:" inputValue with
  | Some rest => rest
  | None =>
      match JS.matchPrefixCI "analyze this:" inputValue with
      | Some rest => rest
      | None => inputValue
      end
  end.

Definition mentionsTrigger (inputValue : string) : bool :=
  JS.includes (JS.toLowerCase inputValue) "index this:"
  || JS.includes (JS.toLowerCase inputValue) "analyze this:".

(** The argument of the call of [parseAndIndexContent] in
    [handleSendMessage], [None] when the call is not made. *)
Definition contentToIndex (inputValue : string) : option string :=
  if mentionsTrigger inputValue then
    let contentToIndex := JS.trim (stripTrigger inputValue) in
    if String.eqb contentToIndex EmptyString then None
    else Some contentToIndex
  else None.

(** [handleSendMessage()], run from a render whose state is [render]: the
    closure reads [inputValue], [apiKey], [messages] and [documentIndex]
    there, and the setters write to the store. *)
Definition handleSendMessage (w : World) (render : ChatState) : M unit :=
  if String.eqb (JS.trim (inputValue render)) EmptyString || noApiKey render
  then ret tt
  else
    let newMessage :=
      {| Message.id := Z.of_nat (List.length (messages render)) + 1;
         Message.text := Plain (inputValue render);
         Message.isUser := true;
         Message.timestamp := Z.of_N (dateNow w);
         Message.context := None |} in
    setMessages (fun _ => messages render ++ [newMessage]) ;;;
    match contentToIndex (inputValue render) with
    | Some contentToIndex => parseAndIndexContent w render contentToIndex
    | None => ret tt
    end ;;;
    setInputValue EmptyString ;;;
    tryCatch
      (let enhancedContext :=
         buildEnhancedContext (documentIndex render) (inputValue render) in
       aiResponseText <-
         await CompletionError
               (streamCompletion w enhancedContext (inputValue render)) ;;
       let aiResponse :=
         {| Message.id := Z.of_nat (List.length (messages render)) + 2;
            Message.text :=
              if String.eqb aiResponseText EmptyString
              then Plain noResponseText
              else Plain aiResponseText;
            Message.isUser := false;
            Message.timestamp := Z.of_N (dateNow w);
            Message.context :=
              Some (if Nat.ltb 0 (List.length (documentIndex render))
                    then "enhanced_context" else "standard") |} in
       setMessages (fun prev => prev ++ [aiResponse]))
      (fun error =>
         let errorMessage :=
           {| Message.id := Z.of_nat (List.length (messages render)) + 2;
              Message.text := Plain completionErrorText;
              Message.isUser := false;
              Message.timestamp := Z.of_N (dateNow w);
              Message.context := None |} in
         setMessages (fun prev => prev ++ [errorMessage])).

Definition clearIndex (w : World) : M unit :=
  setDocumentIndex (fun _ => []) ;;;
  let clearMessage :=
    {| Message.id := Z.of_N (dateNow w);
       Message.text := ClearedNotice;
       Message.isUser := false;
       Message.timestamp := Z.of_N (dateNow w);
       Message.context := Some "system_clear" |} in
  setMessages (fun prev => prev ++ [clearMessage]).

(* ================================================================== *)
(** ** Retrieval over an object store                                  *)
(* ================================================================== *)

(** The entries of [documentIndex] are objects, and an array holds
    references to them.  This module runs [findRelevantIndexEntries] on
    a store of objects, where [{ ...entry, relevanceScore }] allocates a
    new object and [filter], [sort] and [slice] move references. *)
Module Store.

Definition ref := nat.

Definition heap := list IndexEntry.

Definition noEntry : IndexEntry :=
  {| id := EmptyString; content := EmptyString; keywords := [];
     timestamp := 0%Z; relevanceScore := None |}.

(** The object at an address of the store. *)
Definition deref (h : heap) (r : ref) : IndexEntry := nth r h noEntry.

Definition alloc (h : heap) (entry : IndexEntry) : ref * heap :=
  (List.length h, h ++ [entry]).

(** [documentIndex.map(entry => ({ ...entry, relevanceScore }))] *)
Fixpoint mapWithScore (queryWords : list string) (refs : list ref) (h : heap)
  : list ref * heap :=
  match refs with
  | [] => ([], h)
  | r :: refs' =>
      let entry := deref h r in
      let (r', h1) := alloc h (withScore entry (relevance queryWords entry)) in
      let (rs, h2) := mapWithScore queryWords refs' h1 in
      (r' :: rs, h2)
  end.

Definition findRelevantIndexEntries
    (documentIndex : list ref) (query : string) (h : heap) : list ref * heap :=
  let queryWords := queryWordsOf query in
  let (scored, h') := mapWithScore queryWords documentIndex h in
  (JS.slice0 5
     (JS.sort (fun a b => byScore (deref h' a) (deref h' b))
        (filter (fun r => scorePositive (deref h' r)) scored)),
   h').

End Store.

(* ================================================================== *)
(** ** Vocabulary of the properties                                 *)
(* ================================================================== *)

(** [t] occurs in [s]. *)
Definition Substring (t s : string) : Prop :=
  exists pre post, s = (pre ++ t ++ post)%string.

(** The relation a keyword and a query word are counted for. *)
Definition Related (keyword word : string) : Prop :=
  Substring word (JS.toLowerCase keyword)
  \/ Substring (JS.toLowerCase keyword) word.

(** The (keyword, query word) pairs of an entry that are counted. *)
Definition relatedPairs (queryWords : list string) (entry : IndexEntry)
  : list (string * string) :=
  filter (fun p => wordMatches (fst p) (snd p))
         (list_prod (keywords entry) queryWords).

(** The entries that pass the filter, before sorting. *)
Definition positiveEntries
    (documentIndex : list IndexEntry) (query : string) : list IndexEntry :=
  filter scorePositive
    (map (fun entry => withScore entry (relevance (queryWordsOf query) entry))
         documentIndex).

Fixpoint allChars (p : ascii -> bool) (s : string) : bool :=
  match s with
  | EmptyString => true
  | String c s' => p c && allChars p s'
  end.

(** A query that is empty or made of white space only. *)
Definition Blank (query : string) : Prop :=
  allChars JS.isWhiteSpace query = true.

Definition oneKeyword : IndexEntry :=
  {| id := "idx_1"; content := "quick"; keywords := ["quick"];
     timestamp := 0%Z; relevanceScore := None |}.

(** A collaborator that cannot be reached. *)
Definition offlineWorld : World :=
  {| createCompletion := fun _ => None;
     parseAnalysis := fun _ => None;
     streamCompletion := fun _ _ => None;
     dateNow := 1700000000000%N;
     randomSuffix := "k3x9q0z1a" |}.

(** A collaborator that answers with text that is not JSON. *)
Definition garbledWorld : World :=
  {| createCompletion := fun _ => Some (Some "Sure! Here is the analysis.");
     parseAnalysis := fun _ => None;
     streamCompletion := fun _ _ => None;
     dateNow := 1700000000000%N;
     randomSuffix := "k3x9q0z1a" |}.

(** A collaborator whose analysis names one word as keyword and theme. *)
Definition repeatingWorld : World :=
  {| createCompletion := fun _ => Some (Some "{...}");
     parseAnalysis := fun _ =>
       Some {| analysisKeywords := ["Rust"]; analysisThemes := ["Rust"];
               analysisEntities := []; analysisSummary := NoSummary |};
     streamCompletion := fun _ _ => None;
     dateNow := 1700000000000%N;
     randomSuffix := "k3x9q0z1a" |}.

Definition readyState : ChatState :=
  {| messages := []; inputValue := EmptyString; apiKey := Some "gsk_key";
     documentIndex := []; isIndexing := false |}.

(** The entry the fallback path stores. *)
Definition fallbackEntry (w : World) (content : string) : IndexEntry :=
  {| id := newEntryId w; content := content;
     keywords := extractBasicKeywords content;
     timestamp := Z.of_N (dateNow w); relevanceScore := None |}.

(** The entry the analysis path stores. *)
Definition analysedEntry (w : World) (content : string) (analysis : Analysis)
  : IndexEntry :=
  {| id := newEntryId w; content := content;
     keywords := analysisKeywords analysis ++ analysisThemes analysis
                 ++ analysisEntities analysis;
     timestamp := Z.of_N (dateNow w); relevanceScore := None |}.

(** [message] begins with [literal] up to the case of its letters, and
    [rest] is what follows. *)
Definition BeginsWith (literal message rest : string) : Prop :=
  exists p, message = (p ++ rest)%string /\ JS.toLowerCase p = literal.

(** The entries one call of [parseAndIndexContent] appends. *)
Definition storedEntries (w : World) (render : ChatState) (content : string)
  : list IndexEntry :=
  if noApiKey render then []
  else match createCompletion w (analysisPrompt content) with
       | None => []
       | Some response =>
           match parseAnalysis w (orEmpty response) with
           | Some analysis =>
               match summaryText analysis with
               | Some _ => [analysedEntry w content analysis]
               | None => [analysedEntry w content analysis;
                          fallbackEntry w content]
               end
           | None => [fallbackEntry w content]
           end
       end.

Definition allAscii : list ascii := map ascii_of_nat (seq 0 256).

Definition caseAgrees (a b : ascii) : bool :=
  if Ascii.eqb (JS.lowerChar a) a
  then Bool.eqb (Ascii.eqb (JS.canonicalize a) (JS.canonicalize b))
                (Ascii.eqb (JS.lowerChar b) a)
  else true.

(** A session with a key set and a message typed in. *)
Definition typed (message : string) : ChatState :=
  {| messages := []; inputValue := message; apiKey := Some "gsk_key";
     documentIndex := []; isIndexing := false |}.

(** The distinct elements of a list, in the order they first appear. *)
Fixpoint firstSeen (l : list string) : list string :=
  match l with
  | [] => []
  | x :: l' => x :: remove string_dec x (firstSeen l')
  end.

Definition notProto (word : string) : bool :=
  negb (String.eqb word "__proto__").

(** The number of times a word occurs. *)
Definition frequency (words : list string) (word : string) : Z :=
  Z.of_nat (count_occ string_dec words word).

(** The value the table holds for a word it owns. *)
Definition valueOf (words : list string) (word : string) : Obj.value :=
  if String.eqb word "constructor" then Obj.VText
  else Obj.VNum (frequency words word).

Definition isNumeral (word : string) : bool :=
  match Obj.arrayIndex word with Some _ => true | None => false end.

Definition numeralValue (word : string) : N :=
  match Obj.arrayIndex word with Some n => n | None => 0%N end.

Fixpoint insertNumeral (word : string) (l : list string) : list string :=
  match l with
  | [] => [word]
  | x :: l' => if (numeralValue word <=? numeralValue x)%N then word :: l
               else x :: insertNumeral word l'
  end.

(** The order of the names of the table: the array-index numerals in
    ascending order, then the other words in the order they first appear. *)
Definition tableOrder (words : list string) : list string :=
  let names := firstSeen (filter notProto words) in
  fold_right insertNumeral [] (filter isNumeral names)
  ++ filter (fun word => negb (isNumeral word)) names.

(** The code units a word of the table is made of: [a-z0-9_]. *)
Definition tokenChar (c : ascii) : bool :=
  JS.isWordChar c && negb (JS.between 65 90 (JS.code c)).

Definition byCount (words : list string) (a b : string) : JS.number :=
  JS.Num (frequency words b - frequency words a).

(** The extractor as the specification words it: characters that are
    neither letters, digits nor white space are deleted, and ties are
    broken by the order in which the words first appear. *)
Module AsWorded.

Definition isAlphaNumeric (c : ascii) : bool :=
  JS.isDigit c || JS.between 65 90 (JS.code c) || JS.between 97 122 (JS.code c).

Fixpoint strip (s : string) : string :=
  match s with
  | EmptyString => EmptyString
  | String c s' =>
      if isAlphaNumeric c || JS.isWhiteSpace c then String c (strip s')
      else strip s'
  end.

Definition words (content : string) : list string :=
  filter (fun word => Nat.ltb 3 (String.length word))
         (JS.split_ws (strip (JS.toLowerCase content))).

Definition extract (content : string) : list string :=
  firstn 10 (JS.sort (byCount (words content)) (firstSeen (words content))).

End AsWorded.

Definition foxSentence : string :=
  "The quick brown fox jumps over the lazy dog".

Definition EndsWith (s t : string) : Prop :=
  exists pre, s = (pre ++ t)%string.

Fixpoint endsWith (s t : string) : bool :=
  String.eqb s t
  || match s with
     | EmptyString => false
     | String _ s' => endsWith s' t
     end.

Definition twoEntries : list IndexEntry :=
  [ {| id := "idx_1"; content := "Rust ownership and borrowing";
       keywords := ["rust"; "ownership"]; timestamp := 1%Z;
       relevanceScore := None |};
    {| id := "idx_2"; content := "Rust and rust tooling";
       keywords := ["rust"; "Rust"; "cargo"]; timestamp := 2%Z;
       relevanceScore := None |} ].

(** The references of an array point into the store. *)
Definition ValidRefs (h : Store.heap) (refs : list Store.ref) : Prop :=
  Forall (fun r => r < List.length h) refs.

(** The objects an array of references denotes. *)
Definition valuesOf (h : Store.heap) (refs : list Store.ref)
  : list IndexEntry :=
  map (Store.deref h) refs.

(* ================================================================== *)
(** ** The credential: loading and saving the key                      *)
(* ================================================================== *)

(** The component with the flag of the key dialog, which [ChatState]
    leaves out. *)
Record AppState := mkAppState {
  chat : ChatState;
  showModal : bool
}.

(** What the key is kept in: the files of the application directory and
    the [localStorage] of the browser, each a list of (name, text) pairs
    with the latest write first. *)
Record Storage := mkStorage {
  files : list (string * string);
  localStorage : list (string * string)
}.

(** The platform of one run.
    - [isTauri]: [window.__TAURI__] is truthy;
    - [appDataDir]: the answer of [appDataDir()] after the dynamic
      imports, [None] when any of them throws;
    - [writeFails], [setItemFails]: [writeFile] rejects, [setItem] throws. *)
Record Platform := mkPlatform {
  isTauri : bool;
  appDataDir : option string;
  writeFails : bool;
  setItemFails : bool
}.

Fixpoint lookupText (name : string) (l : list (string * string)) : option string :=
  match l with
  | [] => None
  | (n, text) :: l' => if String.eqb n name then Some text else lookupText name l'
  end.

(** A line terminator, which [.] of a regular expression does not match. *)
Definition isLineTerminator (c : ascii) : bool :=
  Nat.eqb (JS.code c) 10 || Nat.eqb (JS.code c) 13.

(** What the group of the expression, any run of code units other than
    line terminators, captures at the start of [s]. *)
Fixpoint restOfLine (s : string) : string :=
  match s with
  | EmptyString => EmptyString
  | String c s' =>
      if isLineTerminator c then EmptyString else String c (restOfLine s')
  end.

Fixpoint dropPrefix (p s : string) : option string :=
  match p, s with
  | EmptyString, _ => Some s
  | String a p', String b s' =>
      if Ascii.eqb a b then dropPrefix p' s' else None
  | String _ _, EmptyString => None
  end.

(** The text after the leftmost occurrence of [literal] in [s]. *)
Fixpoint findAfter (literal s : string) : option string :=
  match dropPrefix literal s with
  | Some rest => Some rest
  | None =>
      match s with
      | EmptyString => None
      | String _ s' => findAfter literal s'
      end
  end.

(** The first group of [envContent.match(...)] for the expression
    [VITE_GROQ_API_KEY=] followed by the group; [None] when the
    expression does not match. *)
Definition envKey (envContent : string) : option string :=
  match findAfter "VITE_GROQ_API_KEY=" envContent with
  | Some rest => Some (restOfLine rest)
  | None => None
  end.

(** [`${appDirPath}/.env`] *)
Definition envPath (appDirPath : string) : string :=
  (appDirPath ++ "/.env")%string.

Definition setApiKey (key : string) (app : AppState) : AppState :=
  {| chat := {| messages := messages (chat app);
                inputValue := inputValue (chat app);
                apiKey := Some key;
                documentIndex := documentIndex (chat app);
                isIndexing := isIndexing (chat app) |};
     showModal := showModal app |}.

Definition setShowModal (b : bool) (app : AppState) : AppState :=
  {| chat := chat app; showModal := b |}.

(** [loadApiKey()], the effect run once when the component mounts.  Any
    exception ends in the handler, which opens the dialog. *)
Definition loadApiKey (p : Platform) (s : Storage) (app : AppState) : AppState :=
  if isTauri p then
    match appDataDir p with
    | None => setShowModal true app
    | Some appDirPath =>
        match lookupText (envPath appDirPath) (files s) with
        | None => setShowModal true app
        | Some envContent =>
            match envKey envContent with
            | Some captured =>
                if String.eqb captured EmptyString then setShowModal true app
                else setApiKey (JS.trim captured) app
            | None => setShowModal true app
            end
        end
    end
  else
    match lookupText "GROQ_API_KEY" (localStorage s) with
    | Some storedKey =>
        if String.eqb storedKey EmptyString then setShowModal true app
        else setApiKey storedKey app
    | None => setShowModal true app
    end.

(** [handleApiKeySave(key)] *)
Definition handleApiKeySave (key : string) (app : AppState) : AppState :=
  setShowModal false (setApiKey key app).

(** What one click on the button of the dialog leaves behind. *)
Record SaveOutcome := mkSaveOutcome {
  storageAfter : Storage;
  appAfter : AppState;
  isLoadingAfter : bool;
  alerted : bool
}.

(** [handleSave()] of the dialog, with [apiKey] the text typed in and
    [isLoading] the flag of the dialog. *)
Definition handleSave (p : Platform) (apiKey : string) (isLoading : bool)
    (s : Storage) (app : AppState) : SaveOutcome :=
  if String.eqb (JS.trim apiKey) EmptyString then
    {| storageAfter := s; appAfter := app;
       isLoadingAfter := isLoading; alerted := false |}
  else
    let failed :=
      {| storageAfter := s; appAfter := app;
         isLoadingAfter := false; alerted := true |} in
    if isTauri p then
      match appDataDir p with
      | None => failed
      | Some appDirPath =>
          if writeFails p then failed
          else
            {| storageAfter :=
                 {| files := (envPath appDirPath,
                              ("VITE_GROQ_API_KEY=" ++ JS.trim apiKey)%string)
                             :: files s;
                    localStorage := localStorage s |};
               appAfter := handleApiKeySave (JS.trim apiKey) app;
               isLoadingAfter := false; alerted := false |}
      end
    else
      if setItemFails p then failed
      else
        {| storageAfter :=
             {| files := files s;
                localStorage := ("GROQ_API_KEY", JS.trim apiKey)
                                :: localStorage s |};
           appAfter := handleApiKeySave (JS.trim apiKey) app;
           isLoadingAfter := false; alerted := false |}.

(* ================================================================== *)
(** ** Vocabulary of the further properties                            *)
(* ================================================================== *)

(** The notices one call of [parseAndIndexContent] appends. *)
Definition storedNotices (w : World) (render : ChatState) (content : string)
  : list Message.t :=
  if noApiKey render then []
  else match createCompletion w (analysisPrompt content) with
       | None => []
       | Some response =>
           match parseAnalysis w (orEmpty response) with
           | Some analysis =>
               match summaryText analysis with
               | Some summary =>
                   [ {| Message.id := Z.of_N (dateNow w);
                        Message.text :=
                          IndexedNotice
                            (List.length
                               (keywords (analysedEntry w content analysis)))
                            summary;
                        Message.isUser := false;
                        Message.timestamp := Z.of_N (dateNow w);
                        Message.context := Some "system_indexing" |} ]
               | None => []
               end
           | None => []
           end
       end.

(** No code unit of [s] is white space. *)
Definition NoWhiteSpace (s : string) : Prop :=
  allChars (fun c => negb (JS.isWhiteSpace c)) s = true.

(** No code unit of [s] is a line terminator. *)
Definition OneLine (s : string) : Prop :=
  allChars (fun c => negb (isLineTerminator c)) s = true.

(** A key the component can use: [apiKey] is truthy. *)
Definition HasKey (st : ChatState) : Prop := noApiKey st = false.

Definition freshApp : AppState :=
  {| chat := {| messages := []; inputValue := EmptyString; apiKey := None;
                documentIndex := []; isIndexing := false |};
     showModal := false |}.

Definition browser : Platform :=
  {| isTauri := false; appDataDir := None;
     writeFails := false; setItemFails := false |}.

Definition desktop : Platform :=
  {| isTauri := true; appDataDir := Some "/home/user/.local/share/agent";
     writeFails := false; setItemFails := false |}.

Definition emptyStorage : Storage := {| files := []; localStorage := [] |}.

(** The message [handleSendMessage] makes of the text typed in. *)
Definition userMessage (w : World) (render : ChatState) : Message.t :=
  {| Message.id := Z.of_nat (List.length (messages render)) + 1;
     Message.text := Plain (inputValue render);
     Message.isUser := true;
     Message.timestamp := Z.of_N (dateNow w);
     Message.context := None |}.

(** The text of the reply, from what the streamed completion gave. *)
Definition replyText (answer : option string) : MessageText :=
  match answer with
  | None => Plain completionErrorText
  | Some text => if String.eqb text EmptyString then Plain noResponseText
                 else Plain text
  end.

(** The answer of the model to the message of a render. *)
Definition answerOf (w : World) (render : ChatState) : option string :=
  streamCompletion w
    (buildEnhancedContext (documentIndex render) (inputValue render))
    (inputValue render).

(** No entry of an index carries a relevance score. *)
Definition ScoreFree (index : list IndexEntry) : Prop :=
  Forall (fun entry => relevanceScore entry = None) index.

(** The records of the index that score above zero, in index order. *)
Definition positiveRecords
    (documentIndex : list IndexEntry) (query : string) : list IndexEntry :=
  filter (fun entry => (0 <? relevance (queryWordsOf query) entry)%Z)
         documentIndex.

(** [a] carries a score, [b] carries a score, and that of [b] is not the
    greater. *)
Definition CarriesNoLess (a b : IndexEntry) : Prop :=
  exists sa sb,
    relevanceScore a = Some sa /\ relevanceScore b = Some sb /\ (sb <= sa)%Z.

(* ================================================================== *)
(** ** Properties                                                      *)
(* ================================================================== *)

Example split_plain : JS.split_ws "brown fox" = ["brown"; "fox"].
Proof. reflexivity. Qed.

Example split_edges : JS.split_ws " a  b " = [""; "a"; "b"; ""].
Proof. reflexivity. Qed.

Example split_empty : JS.split_ws "" = [""].
Proof. reflexivity. Qed.

Example split_blank : JS.split_ws "   " = [""; ""].
Proof. reflexivity. Qed.

Example trim_both : JS.trim "  a b  " = "a b".
Proof. reflexivity. Qed.

Example number_200 : JS.numberToString 200%N = "200".
Proof. reflexivity. Qed.

Example fox_keywords :
  extractBasicKeywords "The quick brown fox jumps over the lazy dog"
  = ["quick"; "brown"; "jumps"; "over"; "lazy"].
Proof. reflexivity. Qed.

Example numerals_first :
  extractBasicKeywords "hello 2024 1999 __proto__ hello"
  = ["hello"; "1999"; "2024"].
Proof. reflexivity. Qed.

Example trigger_prefix : contentToIndex "Index This:  some text " = Some "some text".
Proof. reflexivity. Qed.

Example trigger_inside :
  contentToIndex "please index this: x" = Some "please index this: x".
Proof. reflexivity. Qed.

(* ------------------------------------------------------------------ *)
(** *** Strings                                                        *)
(* ------------------------------------------------------------------ *)

Lemma prefix_app (t s : string) :
  String.prefix t s = true <-> exists post, s = (t ++ post)%string.
Proof.
  revert s; induction t as [|a t IH]; intros s; simpl.
  - destruct s; split; intros; eauto.
  - destruct s as [|b s]; simpl.
    + split; [discriminate | intros [post H]; discriminate].
    + destruct (ascii_dec a b) as [->|Hab].
      * rewrite IH. split; intros [post H]; exists post.
        -- now rewrite H.
        -- now injection H.
      * split; [discriminate | intros [post H]; injection H; congruence].
Qed.

Lemma includes_spec (s t : string) :
  JS.includes s t = true <-> Substring t s.
Proof.
  unfold Substring. induction s as [|c s IH]; cbn [JS.includes].
  - rewrite orb_false_r, prefix_app. split.
    + intros [post H]. exists EmptyString, post. exact H.
    + intros [pre [post H]]. destruct pre; [eauto | discriminate].
  - rewrite orb_true_iff, prefix_app, IH. split.
    + intros [[post H] | [pre [post H]]].
      * exists EmptyString, post. exact H.
      * exists (String c pre), post. simpl. now rewrite H.
    + intros [pre [post H]]. destruct pre as [|c' pre]; simpl in H.
      * left. eauto.
      * right. injection H as _ H. eauto.
Qed.

Lemma includes_empty (s : string) : JS.includes s EmptyString = true.
Proof. apply includes_spec. exists EmptyString, s. reflexivity. Qed.

Lemma string_app_assoc (a b c : string) :
  ((a ++ b) ++ c = a ++ (b ++ c))%string.
Proof. induction a as [|x a IH]; simpl; [reflexivity | now rewrite IH]. Qed.

Lemma string_app_empty_r (a : string) : (a ++ EmptyString)%string = a.
Proof. induction a as [|x a IH]; simpl; [reflexivity | now rewrite IH]. Qed.

Lemma mapChars_app (f : ascii -> ascii) (a b : string) :
  JS.mapChars f (a ++ b) = (JS.mapChars f a ++ JS.mapChars f b)%string.
Proof. induction a as [|x a IH]; simpl; [reflexivity | now rewrite IH]. Qed.

(* ------------------------------------------------------------------ *)
(** *** Lists and the stable sort                                      *)
(* ------------------------------------------------------------------ *)

Lemma In_firstn (A : Type) (n : nat) (l : list A) (x : A) :
  In x (firstn n l) -> In x l.
Proof.
  revert l; induction n as [|n IH]; intros [|y l]; simpl; try tauto.
  intros [H | H]; [now left | right; now apply IH].
Qed.

Lemma NoDup_firstn (A : Type) (n : nat) (l : list A) :
  NoDup l -> NoDup (firstn n l).
Proof.
  revert l; induction n as [|n IH]; intros [|y l] H; simpl;
    try constructor.
  - inversion H; subst. intros Hin. now apply In_firstn in Hin.
  - inversion H; subst. now apply IH.
Qed.

Section Sorting.
Variable A : Type.
Variable cmp : A -> A -> JS.number.

Lemma sortInsert_perm (x : A) (l : list A) :
  Permutation (JS.sortInsert cmp x l) (x :: l).
Proof.
  induction l as [|y l IH]; simpl; [reflexivity|].
  destruct (JS.comesAfter cmp x y); [|reflexivity].
  rewrite IH. apply perm_swap.
Qed.

Lemma sort_perm (l : list A) : Permutation (JS.sort cmp l) l.
Proof.
  induction l as [|x l IH]; simpl; [reflexivity|].
  rewrite sortInsert_perm. now constructor.
Qed.

Lemma sort_In (l : list A) (x : A) : In x (JS.sort cmp l) <-> In x l.
Proof.
  split; apply Permutation_in; [|symmetry]; apply sort_perm.
Qed.

Lemma sort_length (l : list A) :
  List.length (JS.sort cmp l) = List.length l.
Proof. apply Permutation_length, sort_perm. Qed.
End Sorting.

(** A comparator [cmp a b = key b - key a] orders by descending [key]. *)
Section SortingByKey.
Variable A : Type.
Variable key : A -> Z.
Variable cmp : A -> A -> JS.number.
Hypothesis cmp_key : forall a b, cmp a b = JS.Num (key b - key a).

Lemma comesAfter_key (a b : A) :
  JS.comesAfter cmp a b = (key a <? key b)%Z.
Proof.
  unfold JS.comesAfter. rewrite cmp_key.
  destruct (Z.ltb_spec 0 (key b - key a)), (Z.ltb_spec (key a) (key b));
    try reflexivity; lia.
Qed.

Lemma sortInsert_sorted (x : A) (l : list A) :
  StronglySorted (fun a b : A => (key b <= key a)%Z) l ->
  StronglySorted (fun a b : A => (key b <= key a)%Z) (JS.sortInsert cmp x l).
Proof.
  induction 1 as [|y l Hs IH Hall]; simpl.
  - repeat constructor.
  - rewrite comesAfter_key. destruct (Z.ltb_spec (key x) (key y)) as [Hlt|Hge].
    + constructor; [exact IH|].
      rewrite Forall_forall. intros z Hz.
      apply (Permutation_in _ (sortInsert_perm _ cmp x l)) in Hz.
      destruct Hz as [<-|Hz].
      * cbn beta. lia.
      * rewrite Forall_forall in Hall. now apply Hall.
    + constructor; [now constructor|].
      constructor; [exact Hge|].
      rewrite Forall_forall in *. intros z Hz.
      specialize (Hall z Hz). cbn beta in *. lia.
Qed.

Lemma sort_sorted (l : list A) : StronglySorted (fun a b : A => (key b <= key a)%Z) (JS.sort cmp l).
Proof.
  induction l as [|x l IH]; simpl; [constructor|].
  now apply sortInsert_sorted.
Qed.

(** Stability: the elements of one key keep their order. *)
Lemma sortInsert_stable (k : Z) (x : A) (l : list A) :
  filter (fun a => Z.eqb (key a) k) (JS.sortInsert cmp x l)
  = filter (fun a => Z.eqb (key a) k) (x :: l).
Proof.
  induction l as [|y l IH]; [reflexivity|].
  cbn [JS.sortInsert]. rewrite comesAfter_key.
  destruct (Z.ltb_spec (key x) (key y)) as [Hlt|Hge]; [|reflexivity].
  cbn [filter] in *. rewrite IH.
  destruct (Z.eqb_spec (key x) k), (Z.eqb_spec (key y) k);
    try reflexivity; lia.
Qed.

Lemma sort_stable (k : Z) (l : list A) :
  filter (fun a => Z.eqb (key a) k) (JS.sort cmp l)
  = filter (fun a => Z.eqb (key a) k) l.
Proof.
  induction l as [|x l IH]; [reflexivity|].
  cbn [JS.sort]. rewrite sortInsert_stable. cbn [filter]. now rewrite IH.
Qed.
End SortingByKey.

(* ------------------------------------------------------------------ *)
(** *** Relevance scores                                               *)
(* ------------------------------------------------------------------ *)

Lemma wordMatches_spec (keyword word : string) :
  wordMatches keyword word = true <-> Related keyword word.
Proof.
  unfold wordMatches, Related.
  now rewrite orb_true_iff, !includes_spec.
Qed.

Lemma filter_pairs_length (keyword : string) (queryWords : list string) :
  List.length (filter (fun p => wordMatches (fst p) (snd p))
                      (map (pair keyword) queryWords))
  = List.length (filter (wordMatches keyword) queryWords).
Proof.
  induction queryWords as [|w ws IH]; [reflexivity|].
  cbn [map filter fst snd]. destruct (wordMatches keyword w); simpl; lia.
Qed.

Lemma relevance_fold (queryWords kws : list string) (acc : Z) :
  fold_left (fun score keyword =>
               (score + Z.of_nat (List.length
                         (filter (wordMatches keyword) queryWords)))%Z)
            kws acc
  = (acc + Z.of_nat (List.length
             (filter (fun p => wordMatches (fst p) (snd p))
                     (list_prod kws queryWords))))%Z.
Proof.
  revert acc; induction kws as [|k kws IH]; intros acc; cbn [fold_left list_prod].
  - simpl. lia.
  - rewrite IH, filter_app, length_app, filter_pairs_length. lia.
Qed.

Lemma relevance_pairs (queryWords : list string) (entry : IndexEntry) :
  relevance queryWords entry
  = Z.of_nat (List.length (relatedPairs queryWords entry)).
Proof. unfold relevance, relatedPairs. now rewrite relevance_fold. Qed.

Lemma relevance_nonneg (queryWords : list string) (entry : IndexEntry) :
  (0 <= relevance queryWords entry)%Z.
Proof. rewrite relevance_pairs. lia. Qed.


Lemma In_positiveEntries (documentIndex : list IndexEntry) (query : string)
    (r : IndexEntry) :
  In r (positiveEntries documentIndex query) <->
  exists entry, In entry documentIndex
    /\ r = withScore entry (relevance (queryWordsOf query) entry)
    /\ (0 < relevance (queryWordsOf query) entry)%Z.
Proof.
  unfold positiveEntries. rewrite filter_In, in_map_iff. split.
  - intros [[entry [<- Hin]] Hpos]. exists entry. repeat split; auto.
    unfold scorePositive in Hpos. simpl in Hpos. now apply Z.ltb_lt.
  - intros [entry [Hin [-> Hpos]]]. split; [eauto|].
    unfold scorePositive. simpl. now apply Z.ltb_lt.
Qed.

Lemma In_findRelevant (documentIndex : list IndexEntry) (query : string)
    (r : IndexEntry) :
  In r (findRelevantIndexEntries documentIndex query) ->
  In r (positiveEntries documentIndex query).
Proof.
  unfold findRelevantIndexEntries, JS.slice0. intros H.
  apply In_firstn in H. now apply sort_In in H.
Qed.

Lemma In_relatedPairs (queryWords : list string) (entry : IndexEntry)
    (p : string * string) :
  In p (relatedPairs queryWords entry) <->
  In (fst p) (keywords entry) /\ In (snd p) queryWords
  /\ Related (fst p) (snd p).
Proof.
  unfold relatedPairs. destruct p as [k w]. cbn [fst snd].
  rewrite filter_In, in_prod_iff. cbn [fst snd].
  rewrite wordMatches_spec. tauto.
Qed.


(* ------------------------------------------------------------------ *)
(** *** Ranking                                                        *)
(* ------------------------------------------------------------------ *)

Lemma byScore_key (a b : IndexEntry) :
  byScore a b = JS.Num (scoreOrZero b - scoreOrZero a).
Proof. reflexivity. Qed.


(* ------------------------------------------------------------------ *)
(** *** Blank queries                                                  *)
(* ------------------------------------------------------------------ *)

Lemma isWhiteSpace_lowerChar (c : ascii) :
  JS.isWhiteSpace (JS.lowerChar c) = JS.isWhiteSpace c.
Proof. destruct c as [[] [] [] [] [] [] [] []]; reflexivity. Qed.

Lemma allChars_toLowerCase (s : string) :
  allChars JS.isWhiteSpace (JS.toLowerCase s) = allChars JS.isWhiteSpace s.
Proof.
  induction s as [|c s IH]; [reflexivity|].
  cbn [JS.toLowerCase JS.mapChars allChars].
  rewrite isWhiteSpace_lowerChar. unfold JS.toLowerCase in IH. now rewrite IH.
Qed.

Lemma splitSep_blank (s : string) :
  allChars JS.isWhiteSpace s = true -> JS.splitSep s = [EmptyString].
Proof.
  induction s as [|c s IH]; [reflexivity|].
  cbn [allChars JS.splitSep]. intros H. apply andb_true_iff in H.
  destruct H as [Hc Hs]. rewrite Hc. now apply IH.
Qed.

Lemma split_blank_words (s : string) :
  allChars JS.isWhiteSpace s = true ->
  JS.split_ws s
  = match s with
    | EmptyString => [EmptyString]
    | String _ _ => [EmptyString; EmptyString]
    end.
Proof.
  destruct s as [|c s]; [reflexivity|].
  unfold JS.split_ws. cbn [allChars JS.splitTok]. intros H.
  apply andb_true_iff in H. destruct H as [Hc Hs].
  rewrite Hc. now rewrite splitSep_blank.
Qed.

Lemma wordMatches_empty (keyword : string) :
  wordMatches keyword EmptyString = true.
Proof. unfold wordMatches. now rewrite includes_empty. Qed.

Lemma filter_all (A : Type) (p : A -> bool) (l : list A) :
  (forall x, In x l -> p x = true) -> filter p l = l.
Proof.
  induction l as [|x l IH]; [reflexivity|]. intros H. cbn [filter].
  rewrite (H x (or_introl eq_refl)). f_equal. apply IH.
  intros y Hy. apply H. now right.
Qed.

Lemma relevance_empty_words (queryWords : list string) (entry : IndexEntry) :
  (forall w, In w queryWords -> w = EmptyString) ->
  relevance queryWords entry
  = Z.of_nat (List.length (keywords entry) * List.length queryWords).
Proof.
  intros Hw. rewrite relevance_pairs. unfold relatedPairs.
  rewrite filter_all, length_prod; [reflexivity|].
  intros [k w] Hin. apply in_prod_iff in Hin. cbn [fst snd].
  rewrite (Hw w (proj2 Hin)). apply wordMatches_empty.
Qed.

Lemma findRelevant_nil_iff (documentIndex : list IndexEntry) (query : string) :
  findRelevantIndexEntries documentIndex query = []
  <-> positiveEntries documentIndex query = [].
Proof.
  unfold findRelevantIndexEntries, JS.slice0.
  fold (positiveEntries documentIndex query).
  pose proof (sort_length _ byScore (positiveEntries documentIndex query)) as Hl.
  destruct (positiveEntries documentIndex query) as [|e l] eqn:E.
  - split; reflexivity.
  - destruct (JS.sort byScore (e :: l)) as [|x s]; [discriminate|].
    split; discriminate.
Qed.



(* ------------------------------------------------------------------ *)
(** *** Indexing fails soft                                            *)
(* ------------------------------------------------------------------ *)

(** C4 at a concrete input: with a key set and a model call
    that fails, indexing returns normally and stores no record. *)
Lemma C4_failed_call_stores_nothing :
  parseAndIndexContent offlineWorld readyState "some content to index" readyState
  = (Done tt, readyState)
  /\ documentIndex
       (snd (parseAndIndexContent offlineWorld readyState
               "some content to index" readyState)) = [].
Proof. split; reflexivity. Qed.

Lemma parseAndIndexContent_run (w : World) (render : ChatState)
    (content : string) (st : ChatState) :
  parseAndIndexContent w render content st
  = (Done tt,
     {| messages := messages st ++ storedNotices w render content;
        inputValue := inputValue st;
        apiKey := apiKey st;
        documentIndex := documentIndex st ++ storedEntries w render content;
        isIndexing := false |}).
Proof.
  unfold parseAndIndexContent, storedEntries, storedNotices,
    bind, tryFinally, tryCatch, await.
  cbn [setIsIndexing].
  destruct (noApiKey render).
  - cbn. now rewrite !app_nil_r.
  - destruct (createCompletion w (analysisPrompt content)) as [response|].
    + destruct (parseAnalysis w (orEmpty response)) as [analysis|] eqn:Hp;
        cbn; unfold bind; rewrite Hp; cbn.
      * destruct (summaryText analysis) as [summary|]; cbn;
          now rewrite ?app_nil_r, <- ?app_assoc.
      * now rewrite ?app_nil_r.
    + cbn. now rewrite !app_nil_r.
Qed.

(** C4, amended.  Whatever the content, the indexing operation never
    throws to its caller and leaves the in-progress flag off.  When the
    response of the model cannot be parsed it falls back to the local
    extractor and appends one record with the fallback keywords, emitting
    no notice; when the response parses and its summary can be printed it
    appends one record with the concatenated keywords; when the model call
    itself fails, or no key is set, it stores nothing. *)
Theorem C4_indexing_never_throws :
  forall (w : World) (render : ChatState) (content : string) (st : ChatState),
    let st' := snd (parseAndIndexContent w render content st) in
    fst (parseAndIndexContent w render content st) = Done tt
    /\ isIndexing st' = false
    /\ (noApiKey render = false ->
        forall response,
          createCompletion w (analysisPrompt content) = Some response ->
          parseAnalysis w (orEmpty response) = None ->
          documentIndex st' = documentIndex st ++ [fallbackEntry w content]
          /\ messages st' = messages st)
    /\ (noApiKey render = false ->
        forall response analysis summary,
          createCompletion w (analysisPrompt content) = Some response ->
          parseAnalysis w (orEmpty response) = Some analysis ->
          summaryText analysis = Some summary ->
          documentIndex st'
          = documentIndex st ++ [analysedEntry w content analysis])
    /\ (noApiKey render = false ->
        createCompletion w (analysisPrompt content) = None ->
        documentIndex st' = documentIndex st /\ messages st' = messages st)
    /\ (noApiKey render = true ->
        documentIndex st' = documentIndex st /\ messages st' = messages st).
Proof.
  intros w render content st st'. subst st'.
  rewrite parseAndIndexContent_run.
  cbn [fst snd isIndexing documentIndex messages].
  unfold storedEntries, storedNotices.
  split; [reflexivity|]. split; [reflexivity|].
  split; [|split; [|split]].
  - intros Hk response Hc Hp. rewrite Hk, Hc, Hp.
    split; [reflexivity | apply app_nil_r].
  - intros Hk response analysis summary Hc Hp Hs. now rewrite Hk, Hc, Hp, Hs.
  - intros Hk Hc. rewrite Hk, Hc. split; apply app_nil_r.
  - intros Hk. rewrite Hk. split; apply app_nil_r.
Qed.

Lemma C4_indexing_witness :
  noApiKey readyState = false
  /\ documentIndex
       (snd (parseAndIndexContent garbledWorld readyState
               "The quick brown fox jumps over the lazy dog" readyState))
     = [fallbackEntry garbledWorld
          "The quick brown fox jumps over the lazy dog"].
Proof.
  split; [reflexivity|].
  refine (proj1 (proj1 (proj2 (proj2
            (C4_indexing_never_throws garbledWorld readyState
               "The quick brown fox jumps over the lazy dog" readyState)))
            eq_refl _ eq_refl eq_refl)).
Defined.

(* ------------------------------------------------------------------ *)
(** *** The trigger of an indexing operation                           *)
(* ------------------------------------------------------------------ *)

Lemma In_allAscii (c : ascii) : In c allAscii.
Proof.
  unfold allAscii. apply in_map_iff. exists (nat_of_ascii c). split.
  - apply ascii_nat_embedding.
  - apply in_seq. pose proof (nat_ascii_bounded c). lia.
Qed.

Lemma caseAgrees_all :
  forallb (fun a => forallb (caseAgrees a) allAscii) allAscii = true.
Proof. vm_compute. reflexivity. Qed.

(** On a code unit that lower-casing leaves alone, the case-insensitive
    comparison of the regular expression is equality after lower-casing. *)
Lemma canonicalize_lowerChar (a b : ascii) :
  JS.lowerChar a = a ->
  (Ascii.eqb (JS.canonicalize a) (JS.canonicalize b) = true
   <-> JS.lowerChar b = a).
Proof.
  intros Ha. pose proof caseAgrees_all as H.
  rewrite forallb_forall in H. specialize (H a (In_allAscii a)).
  rewrite forallb_forall in H. specialize (H b (In_allAscii b)).
  unfold caseAgrees in H. rewrite Ha, Ascii.eqb_refl in H.
  apply Bool.eqb_prop in H. rewrite H. apply Ascii.eqb_eq.
Qed.

Lemma matchPrefixCI_spec (literal : string) :
  JS.toLowerCase literal = literal ->
  forall message rest,
    JS.matchPrefixCI literal message = Some rest
    <-> BeginsWith literal message rest.
Proof.
  unfold BeginsWith.
  induction literal as [|a literal IH]; intros Hlow message rest.
  - cbn [JS.matchPrefixCI]. split.
    + intros H. injection H as <-. now exists EmptyString.
    + intros [p [-> Hp]]. destruct p; [reflexivity | discriminate].
  - cbn in Hlow. injection Hlow as Ha Hl.
    destruct message as [|b message]; cbn [JS.matchPrefixCI].
    + split; [discriminate|].
      intros [p [Hm Hp]]. destruct p; discriminate.
    + destruct (Ascii.eqb (JS.canonicalize a) (JS.canonicalize b)) eqn:E.
      * apply (canonicalize_lowerChar a b Ha) in E.
        rewrite (IH Hl). split.
        -- intros [p [-> Hp]]. exists (String b p). split; [reflexivity|].
           cbn. unfold JS.toLowerCase in Hp. now rewrite E, Hp.
        -- intros [p [Hm Hp]]. destruct p as [|c p]; [discriminate|].
           cbn in Hm, Hp. injection Hm as -> ->. injection Hp as _ Hp.
           now exists p.
      * split; [discriminate|].
        intros [p [Hm Hp]]. destruct p as [|c p]; [discriminate|].
        cbn in Hm, Hp. injection Hm as -> ->. injection Hp as Hc _.
        apply (canonicalize_lowerChar a c Ha) in Hc. congruence.
Qed.

Lemma BeginsWith_mentions (literal message rest : string) :
  BeginsWith literal message rest ->
  JS.includes (JS.toLowerCase message) literal = true.
Proof.
  intros [p [-> Hp]]. apply includes_spec.
  exists EmptyString, (JS.toLowerCase rest).
  unfold JS.toLowerCase in *. now rewrite mapChars_app, Hp.
Qed.

Lemma BeginsWith_first (a : ascii) (tail message rest : string) :
  BeginsWith (String a tail) message rest ->
  exists b m, message = String b m /\ JS.lowerChar b = a.
Proof.
  intros [p [-> Hp]]. destruct p as [|b p]; [discriminate|].
  cbn in Hp. injection Hp as Hb _. now exists b, (p ++ rest)%string.
Qed.

Lemma stripTrigger_index (message rest : string) :
  BeginsWith "index this:" message rest -> stripTrigger message = rest.
Proof.
  intros H. unfold stripTrigger.
  apply (matchPrefixCI_spec "index this:" eq_refl) in H. now rewrite H.
Qed.

Lemma stripTrigger_analyze (message rest : string) :
  BeginsWith "analyze this:" message rest -> stripTrigger message = rest.
Proof.
  intros H. unfold stripTrigger.
  destruct (JS.matchPrefixCI "index this:" message) as [r|] eqn:E.
  - apply (matchPrefixCI_spec "index this:" eq_refl) in E.
    destruct (BeginsWith_first _ _ _ _ E) as [b [m [Hm Hb]]].
    destruct (BeginsWith_first _ _ _ _ H) as [b' [m' [Hm' Hb']]].
    rewrite Hm in Hm'. injection Hm' as <- _. rewrite Hb in Hb'. discriminate.
  - apply (matchPrefixCI_spec "analyze this:" eq_refl) in H. now rewrite H.
Qed.

Lemma parseAndIndexContent_index (w : World) (render : ChatState)
    (content : string) (st : ChatState) :
  documentIndex (snd (parseAndIndexContent w render content st))
  = documentIndex st ++ storedEntries w render content.
Proof. now rewrite parseAndIndexContent_run. Qed.

Lemma parseAndIndexContent_done (w : World) (render : ChatState)
    (content : string) (st : ChatState) :
  fst (parseAndIndexContent w render content st) = Done tt.
Proof. now rewrite parseAndIndexContent_run. Qed.

(** The entries one call of [handleSendMessage] appends. *)
Lemma handleSendMessage_index (w : World) (render st : ChatState) :
  documentIndex (snd (handleSendMessage w render st))
  = documentIndex st
    ++ (if String.eqb (JS.trim (inputValue render)) EmptyString
           || noApiKey render
        then []
        else match contentToIndex (inputValue render) with
             | Some content => storedEntries w render content
             | None => []
             end).
Proof.
  unfold handleSendMessage.
  destruct (String.eqb (JS.trim (inputValue render)) EmptyString
            || noApiKey render).
  - cbn. now rewrite app_nil_r.
  - unfold bind at 1. cbn [setMessages].
    unfold bind at 1.
    destruct (contentToIndex (inputValue render)) as [content|].
    + match goal with
      | |- context [parseAndIndexContent w render content ?s] =>
          pose proof (parseAndIndexContent_index w render content s) as Hi;
          pose proof (parseAndIndexContent_done w render content s) as Hd;
          destruct (parseAndIndexContent w render content s) as [r s1]
      end.
      cbn [fst snd] in Hi, Hd. subst r. cbn [documentIndex] in Hi.
      rewrite <- Hi.
      unfold bind, tryCatch, await. cbn [setInputValue].
      destruct (streamCompletion w _ _); reflexivity.
    + rewrite app_nil_r. unfold ret, bind, tryCatch, await. cbn [setInputValue].
      destruct (streamCompletion w _ _); reflexivity.
Qed.

Lemma trim_first_kept (c : ascii) (s : string) :
  JS.isWhiteSpace c = false -> JS.trim (String c s) <> EmptyString.
Proof.
  intros Hc. unfold JS.trim. cbn [JS.trimStart]. rewrite Hc.
  cbn [JS.trimEnd]. destruct (JS.trimEnd s); [rewrite Hc|]; discriminate.
Qed.

Lemma lowerChar_letter_not_space (b a : ascii) :
  JS.lowerChar b = a -> JS.isWhiteSpace a = false -> JS.isWhiteSpace b = false.
Proof. intros <-. now rewrite isWhiteSpace_lowerChar. Qed.

Lemma trigger_not_blank (message rest : string) :
  BeginsWith "index this:" message rest
  \/ BeginsWith "analyze this:" message rest ->
  String.eqb (JS.trim message) EmptyString = false.
Proof.
  intros H. apply String.eqb_neq.
  destruct H as [H|H];
    destruct (BeginsWith_first _ _ _ _ H) as [b [m [-> Hb]]];
    apply trim_first_kept;
    apply (lowerChar_letter_not_space _ _ Hb); reflexivity.
Qed.

Lemma contentToIndex_trigger (message rest : string) :
  BeginsWith "index this:" message rest
  \/ BeginsWith "analyze this:" message rest ->
  contentToIndex message
  = if String.eqb (JS.trim rest) EmptyString then None
    else Some (JS.trim rest).
Proof.
  intros H. unfold contentToIndex, mentionsTrigger.
  destruct H as [H|H].
  - rewrite (BeginsWith_mentions _ _ _ H). cbn [orb].
    now rewrite (stripTrigger_index _ _ H).
  - rewrite (BeginsWith_mentions _ _ _ H), orb_true_r.
    now rewrite (stripTrigger_analyze _ _ H).
Qed.

Lemma contentToIndex_no_mention (message : string) :
  ~ Substring "index this:" (JS.toLowerCase message) ->
  ~ Substring "analyze this:" (JS.toLowerCase message) ->
  contentToIndex message = None.
Proof.
  intros H1 H2. unfold contentToIndex, mentionsTrigger.
  destruct (JS.includes (JS.toLowerCase message) "index this:") eqn:E1;
    [apply includes_spec in E1; contradiction|].
  destruct (JS.includes (JS.toLowerCase message) "analyze this:") eqn:E2;
    [apply includes_spec in E2; contradiction|].
  reflexivity.
Qed.

(** C5 at concrete inputs: a message that is the prefix alone
    begins with the prefix and triggers no indexing; a message that has
    the phrase after other words does not begin with it and is indexed,
    whole. *)
Lemma C5_trigger_is_not_prefix_test :
  BeginsWith "index this:" "index this:" ""
  /\ contentToIndex "index this:" = None
  /\ documentIndex (snd (handleSendMessage garbledWorld (typed "index this:")
                           (typed "index this:"))) = []
  /\ JS.matchPrefixCI "index this:" "please index this: my notes" = None
  /\ JS.matchPrefixCI "analyze this:" "please index this: my notes" = None
  /\ contentToIndex "please index this: my notes"
     = Some "please index this: my notes".
Proof.
  split; [exists "index this:"; split; reflexivity|].
  repeat split; reflexivity.
Qed.

(** C5, amended.  With a key set, a message that begins with one of the
    prefixes [index this:] and [analyze this:], in any case of letters,
    triggers an indexing operation exactly when the rest of the message
    after the prefix, trimmed, is not empty, and that trimmed rest is the
    content handed to the indexing operation; a message in which neither
    phrase occurs, in any case of letters, triggers none. *)
Theorem C5_prefix_triggers_indexing_of_rest :
  forall (w : World) (render st : ChatState),
    let message := inputValue render in
    (forall rest,
        noApiKey render = false ->
        BeginsWith "index this:" message rest
        \/ BeginsWith "analyze this:" message rest ->
        contentToIndex message
        = (if String.eqb (JS.trim rest) EmptyString then None
           else Some (JS.trim rest))
        /\ documentIndex (snd (handleSendMessage w render st))
           = documentIndex st
             ++ (if String.eqb (JS.trim rest) EmptyString then []
                 else storedEntries w render (JS.trim rest)))
    /\ (~ Substring "index this:" (JS.toLowerCase message) ->
        ~ Substring "analyze this:" (JS.toLowerCase message) ->
        contentToIndex message = None
        /\ documentIndex (snd (handleSendMessage w render st))
           = documentIndex st).
Proof.
  intros w render st message. split.
  - intros rest Hkey Hbegin.
    pose proof (contentToIndex_trigger _ _ Hbegin) as Hc.
    split; [exact Hc|].
    rewrite handleSendMessage_index. f_equal. fold message.
    rewrite (trigger_not_blank _ _ Hbegin), Hkey, Hc. cbn [orb].
    now destruct (String.eqb (JS.trim rest) EmptyString).
  - intros H1 H2. pose proof (contentToIndex_no_mention _ H1 H2) as Hc.
    split; [exact Hc|].
    rewrite handleSendMessage_index. fold message. rewrite Hc.
    destruct (_ || _); now rewrite app_nil_r.
Qed.

Lemma C5_prefix_witness :
  noApiKey (typed "Index This:  brown foxes ") = false
  /\ BeginsWith "index this:" "Index This:  brown foxes " "  brown foxes "
  /\ contentToIndex "Index This:  brown foxes " = Some "brown foxes".
Proof.
  assert (Hb : BeginsWith "index this:" "Index This:  brown foxes "
                          "  brown foxes ")
    by (exists "Index This:"; split; reflexivity).
  split; [reflexivity|]. split; [exact Hb|].
  exact (proj1 (proj1 (C5_prefix_triggers_indexing_of_rest
                         garbledWorld (typed "Index This:  brown foxes ")
                         (typed "Index This:  brown foxes "))
                  "  brown foxes " eq_refl (or_introl Hb))).
Defined.

(* ------------------------------------------------------------------ *)
(** *** The frequency table                                            *)
(* ------------------------------------------------------------------ *)

Lemma In_remove_iff (x y : string) (l : list string) :
  In y (remove string_dec x l) <-> In y l /\ y <> x.
Proof.
  split.
  - intros H. apply in_remove in H. exact H.
  - intros [H1 H2]. now apply in_in_remove.
Qed.

Lemma In_firstSeen (l : list string) (x : string) :
  In x (firstSeen l) <-> In x l.
Proof.
  induction l as [|y l IH]; [reflexivity|]. cbn [firstSeen In].
  rewrite In_remove_iff, IH.
  destruct (string_dec y x) as [->|Hne]; [tauto|].
  split; [tauto|]. intros [H|H]; [tauto|]. right. split; congruence.
Qed.

Lemma NoDup_remove (x : string) (l : list string) :
  NoDup l -> NoDup (remove string_dec x l).
Proof.
  induction 1 as [|y l Hy Hl IH]; cbn [remove]; [constructor|].
  destruct (string_dec x y); [exact IH|].
  constructor; [|exact IH]. rewrite In_remove_iff. tauto.
Qed.

Lemma NoDup_firstSeen (l : list string) : NoDup (firstSeen l).
Proof.
  induction l as [|x l IH]; cbn [firstSeen]; constructor.
  - rewrite In_remove_iff. tauto.
  - now apply NoDup_remove.
Qed.

Lemma remove_absent (x : string) (l : list string) :
  ~ In x l -> remove string_dec x l = l.
Proof. apply notin_remove. Qed.

Lemma firstSeen_snoc (l : list string) (w : string) :
  firstSeen (l ++ [w])
  = if in_dec string_dec w l then firstSeen l else firstSeen l ++ [w].
Proof.
  induction l as [|x l IH]; [reflexivity|].
  cbn [app firstSeen]. rewrite IH.
  destruct (in_dec string_dec w l) as [Hin|Hnin];
    destruct (in_dec string_dec w (x :: l)) as [Hin'|Hnin'];
    try reflexivity.
  - exfalso. apply Hnin'. now right.
  - destruct Hin' as [->|Hin']; [|contradiction].
    rewrite remove_app. cbn [remove].
    destruct (string_dec w w); [|congruence]. now rewrite app_nil_r.
  - rewrite remove_app. cbn [remove].
    destruct (string_dec x w) as [->|Hne]; [|reflexivity].
    exfalso. apply Hnin'. now left.
Qed.

Lemma own_map (f : string -> Obj.value) (names : list string) (k : string) :
  Obj.own (map (fun x => (x, f x)) names) k
  = if in_dec string_dec k names then Some (f k) else None.
Proof.
  induction names as [|x names IH]; [reflexivity|].
  cbn [map Obj.own]. rewrite IH.
  destruct (String.eqb_spec x k) as [->|Hne].
  - destruct (in_dec string_dec k (k :: names)) as [|Hn]; [reflexivity|].
    exfalso. apply Hn. now left.
  - destruct (in_dec string_dec k names) as [Hin|Hnin];
      destruct (in_dec string_dec k (x :: names)) as [Hin'|Hnin'];
      try reflexivity.
    + exfalso. apply Hnin'. now right.
    + destruct Hin' as [->|Hin']; [congruence | contradiction].
Qed.

Lemma update_absent (f : string -> Obj.value) (names : list string)
    (k : string) (v : Obj.value) :
  ~ In k names ->
  Obj.update (map (fun x => (x, f x)) names) k v
  = map (fun x => (x, f x)) names ++ [(k, v)].
Proof.
  induction names as [|x names IH]; intros Hn; [reflexivity|].
  cbn [map Obj.update app].
  destruct (String.eqb_spec x k) as [->|Hne].
  - exfalso. apply Hn. now left.
  - rewrite IH; [reflexivity|]. intros H. apply Hn. now right.
Qed.

Lemma update_present (f g : string -> Obj.value) (names : list string)
    (k : string) :
  NoDup names -> In k names ->
  (forall x, x <> k -> g x = f x) ->
  Obj.update (map (fun x => (x, f x)) names) k (g k)
  = map (fun x => (x, g x)) names.
Proof.
  intros Hnd Hin Hfg. induction names as [|x names IH]; [destruct Hin|].
  cbn [map Obj.update]. inversion Hnd as [|? ? Hx Hnd']; subst.
  destruct (String.eqb_spec x k) as [->|Hne].
  - f_equal. apply map_ext_in. intros y Hy.
    rewrite Hfg; [reflexivity|]. intros ->. contradiction.
  - rewrite (Hfg x Hne). f_equal. apply IH; [exact Hnd'|].
    destruct Hin as [->|Hin]; [congruence | exact Hin].
Qed.

Lemma frequency_snoc (words : list string) (w k : string) :
  frequency (words ++ [w]) k
  = (frequency words k + if string_dec w k then 1 else 0)%Z.
Proof.
  unfold frequency. rewrite count_occ_app. cbn [count_occ].
  destruct (string_dec w k); lia.
Qed.

Lemma valueOf_snoc_other (words : list string) (w k : string) :
  k <> w -> valueOf (words ++ [w]) k = valueOf words k.
Proof.
  intros Hne. unfold valueOf. rewrite frequency_snoc.
  destruct (string_dec w k); [congruence|]. now rewrite Z.add_0_r.
Qed.

Lemma In_filter_notProto (words : list string) (w : string) :
  notProto w = true -> (In w (filter notProto words) <-> In w words).
Proof. intros Hw. rewrite filter_In. tauto. Qed.

Lemma bump_owned (words names : list string) (w : string) :
  In w names ->
  Obj.bump (map (fun x => (x, valueOf words x)) names) w
  = valueOf (words ++ [w]) w.
Proof.
  intros Hin. unfold Obj.bump. rewrite own_map.
  destruct (in_dec string_dec w names); [|contradiction].
  unfold valueOf. rewrite frequency_snoc.
  destruct (String.eqb w "constructor"); [reflexivity|].
  destruct (string_dec w w); [reflexivity | congruence].
Qed.

Lemma bump_new (words names : list string) (w : string) :
  notProto w = true -> ~ In w names -> ~ In w words ->
  Obj.bump (map (fun x => (x, valueOf words x)) names) w
  = valueOf (words ++ [w]) w.
Proof.
  intros Hp Hn Hw. unfold Obj.bump. rewrite own_map.
  destruct (in_dec string_dec w names); [contradiction|].
  unfold valueOf, Obj.inherited. rewrite frequency_snoc.
  unfold notProto in Hp. apply negb_true_iff in Hp. rewrite Hp, orb_false_r.
  destruct (String.eqb w "constructor"); [reflexivity|].
  unfold frequency. rewrite (proj1 (count_occ_not_In string_dec words w) Hw).
  destruct (string_dec w w); [reflexivity | congruence].
Qed.

(** The table after counting: the words other than [__proto__], in the
    order they first appear, each with its value. *)
Lemma countWords_table (words : list string) :
  countWords words
  = map (fun k => (k, valueOf words k)) (firstSeen (filter notProto words)).
Proof.
  induction words as [|w words IH] using rev_ind; [reflexivity|].
  unfold countWords in *. rewrite fold_left_app. cbn [fold_left].
  rewrite IH. clear IH. rewrite filter_app. cbn [filter].
  unfold Obj.set. destruct (notProto w) eqn:Hp.
  - assert (Hw : String.eqb w "__proto__" = false)
      by (unfold notProto in Hp; now apply negb_true_iff in Hp).
    rewrite Hw, firstSeen_snoc.
    destruct (in_dec string_dec w (filter notProto words)) as [Hin|Hnin].
    + rewrite bump_owned by (now apply In_firstSeen).
      apply update_present.
      * apply NoDup_firstSeen.
      * now apply In_firstSeen.
      * intros x Hx. now apply valueOf_snoc_other.
    + rewrite bump_new; [|exact Hp| |].
      * rewrite update_absent by (now rewrite In_firstSeen).
        rewrite map_app. cbn [map]. f_equal.
        apply map_ext_in. intros x Hx. f_equal. symmetry.
        apply valueOf_snoc_other.
        intros ->. apply Hnin. now apply In_firstSeen.
      * now rewrite In_firstSeen.
      * intros H. apply Hnin. now apply In_filter_notProto.
  - assert (Hw : String.eqb w "__proto__" = true)
      by (unfold notProto in Hp; now apply negb_false_iff in Hp).
    rewrite Hw, app_nil_r. apply map_ext_in. intros x Hx. f_equal.
    symmetry. apply valueOf_snoc_other. intros ->.
    apply In_firstSeen, filter_In in Hx. destruct Hx as [_ Hx]. congruence.
Qed.

Lemma insertByIndex_map (f : string -> Obj.value) (k : string)
    (names : list string) :
  Obj.insertByIndex (k, f k) (map (fun x => (x, f x)) names)
  = map (fun x => (x, f x)) (insertNumeral k names).
Proof.
  induction names as [|x names IH]; [reflexivity|].
  cbn [map Obj.insertByIndex insertNumeral].
  change (Obj.indexOf (k, f k)) with (numeralValue k).
  change (Obj.indexOf (x, f x)) with (numeralValue x).
  destruct (numeralValue k <=? numeralValue x)%N; [reflexivity|].
  cbn [map]. now rewrite IH.
Qed.

Lemma filter_map_names (f : string -> Obj.value) (p : string -> bool)
    (names : list string) :
  filter (fun e => p (fst e)) (map (fun x => (x, f x)) names)
  = map (fun x => (x, f x)) (filter p names).
Proof.
  induction names as [|x names IH]; [reflexivity|].
  cbn [map filter fst]. destruct (p x); cbn [map]; now rewrite IH.
Qed.

Lemma entries_map (f : string -> Obj.value) (names : list string) :
  Obj.entries (map (fun x => (x, f x)) names)
  = map (fun x => (x, f x))
        (fold_right insertNumeral [] (filter isNumeral names)
         ++ filter (fun word => negb (isNumeral word)) names).
Proof.
  unfold Obj.entries. rewrite map_app. f_equal.
  - change Obj.isIndexKey with (fun e : string * Obj.value => isNumeral (fst e)).
    rewrite filter_map_names.
    induction (filter isNumeral names) as [|x l IH]; [reflexivity|].
    cbn [map fold_right]. rewrite IH. apply insertByIndex_map.
  - change (fun p : string * Obj.value => negb (Obj.isIndexKey p))
      with (fun e : string * Obj.value => negb (isNumeral (fst e))).
    apply (filter_map_names f (fun word => negb (isNumeral word))).
Qed.

Lemma entries_table (words : list string) :
  Obj.entries (countWords words)
  = map (fun k => (k, valueOf words k)) (tableOrder words).
Proof. rewrite countWords_table. apply entries_map. Qed.

Lemma sortInsert_map (A B : Type) (f : A -> B)
    (cmp : B -> B -> JS.number) (cmp' : A -> A -> JS.number)
    (x : A) (l : list A) :
  (forall a b, cmp (f a) (f b) = cmp' a b) ->
  JS.sortInsert cmp (f x) (map f l) = map f (JS.sortInsert cmp' x l).
Proof.
  intros H. induction l as [|y l IH]; [reflexivity|].
  cbn [map JS.sortInsert]. unfold JS.comesAfter. rewrite H.
  destruct (cmp' x y) as [z|]; [destruct (0 <? z)%Z|]; cbn [map];
    now rewrite ?IH.
Qed.

Lemma sort_map (A B : Type) (f : A -> B)
    (cmp : B -> B -> JS.number) (cmp' : A -> A -> JS.number) (l : list A) :
  (forall a b, cmp (f a) (f b) = cmp' a b) ->
  JS.sort cmp (map f l) = map f (JS.sort cmp' l).
Proof.
  intros H. induction l as [|x l IH]; [reflexivity|].
  cbn [map JS.sort]. rewrite IH. now apply sortInsert_map.
Qed.

Lemma insertNumeral_perm (w : string) (l : list string) :
  Permutation (insertNumeral w l) (w :: l).
Proof.
  induction l as [|x l IH]; cbn [insertNumeral]; [reflexivity|].
  destruct (numeralValue w <=? numeralValue x)%N; [reflexivity|].
  rewrite IH. apply perm_swap.
Qed.

Lemma sortNumerals_perm (l : list string) :
  Permutation (fold_right insertNumeral [] l) l.
Proof.
  induction l as [|x l IH]; cbn [fold_right]; [reflexivity|].
  rewrite insertNumeral_perm. now constructor.
Qed.

Lemma insertNumeral_sorted (w : string) (l : list string) :
  StronglySorted (fun a b => (numeralValue a <= numeralValue b)%N) l ->
  StronglySorted (fun a b => (numeralValue a <= numeralValue b)%N)
                 (insertNumeral w l).
Proof.
  induction 1 as [|x l Hs IH Hall]; cbn [insertNumeral].
  - repeat constructor.
  - destruct (N.leb_spec (numeralValue w) (numeralValue x)) as [Hle|Hgt].
    + constructor; [now constructor|]. constructor; [exact Hle|].
      rewrite Forall_forall in *. intros z Hz. specialize (Hall z Hz). lia.
    + constructor; [exact IH|]. rewrite Forall_forall in *. intros z Hz.
      apply (Permutation_in _ (insertNumeral_perm w l)) in Hz.
      destruct Hz as [<-|Hz]; [lia | now apply Hall].
Qed.

Lemma sortNumerals_sorted (l : list string) :
  StronglySorted (fun a b => (numeralValue a <= numeralValue b)%N)
                 (fold_right insertNumeral [] l).
Proof.
  induction l as [|x l IH]; cbn [fold_right]; [constructor|].
  now apply insertNumeral_sorted.
Qed.

Lemma filter_split_perm (A : Type) (p : A -> bool) (l : list A) :
  Permutation (filter p l ++ filter (fun x => negb (p x)) l) l.
Proof.
  induction l as [|x l IH]; [reflexivity|]. cbn [filter].
  destruct (p x); cbn [negb app].
  - now constructor.
  - symmetry. apply Permutation_cons_app. now symmetry.
Qed.

Lemma tableOrder_perm (words : list string) :
  Permutation (tableOrder words) (firstSeen (filter notProto words)).
Proof.
  unfold tableOrder. rewrite sortNumerals_perm. apply filter_split_perm.
Qed.

Lemma NoDup_tableOrder (words : list string) : NoDup (tableOrder words).
Proof.
  apply (Permutation_NoDup (Permutation_sym (tableOrder_perm words))).
  apply NoDup_firstSeen.
Qed.

Lemma In_tableOrder (words : list string) (w : string) :
  In w (tableOrder words) <-> In w words /\ w <> "__proto__".
Proof.
  split.
  - intros H. apply (Permutation_in _ (tableOrder_perm words)) in H.
    apply In_firstSeen, filter_In in H. destruct H as [H1 H2].
    split; [exact H1|]. unfold notProto in H2.
    apply negb_true_iff in H2. now apply String.eqb_neq.
  - intros [H1 H2].
    apply (Permutation_in _ (Permutation_sym (tableOrder_perm words))).
    apply In_firstSeen, filter_In. split; [exact H1|].
    unfold notProto. apply negb_true_iff. now apply String.eqb_neq.
Qed.

Lemma map_fst_names (f : string -> Obj.value) (names : list string) :
  map fst (map (fun x => (x, f x)) names) = names.
Proof. rewrite map_map. cbn [fst]. apply map_id. Qed.

(** C10.  Whatever the text, the keywords of the fallback extractor are
    pairwise distinct, however often a word occurs in the text, because
    they are names of a frequency table; the keywords assembled from the
    answer of the model can repeat a word across its keywords, themes and
    entities. *)
Theorem C10_fallback_keywords_distinct :
  (forall text : string, NoDup (extractBasicKeywords text))
  /\ (exists (w : World) (content : string) (entry : IndexEntry),
         documentIndex (snd (parseAndIndexContent w readyState content readyState))
         = [entry]
         /\ ~ NoDup (keywords entry)).
Proof.
  split.
  - intros text. unfold extractBasicKeywords, JS.slice0.
    rewrite <- firstn_map. apply NoDup_firstn.
    rewrite entries_table.
    eapply Permutation_NoDup.
    + symmetry. apply Permutation_map. apply sort_perm.
    + rewrite map_fst_names. apply NoDup_tableOrder.
  - exists repeatingWorld, "Rust is a language".
    eexists. split; [vm_compute; reflexivity|].
    cbn. intros H. inversion H as [|x l Hx Hl]; subst. apply Hx. now left.
Qed.

(* ------------------------------------------------------------------ *)
(** *** The fallback extractor                                         *)
(* ------------------------------------------------------------------ *)

Lemma allChars_app (p : ascii -> bool) (a b : string) :
  allChars p (a ++ b) = allChars p a && allChars p b.
Proof.
  induction a as [|c a IH]; [reflexivity|].
  cbn [append allChars]. now rewrite IH, andb_assoc.
Qed.

Lemma split_pieces (p : ascii -> bool) (s : string) :
  allChars (fun c => JS.isWhiteSpace c || p c) s = true ->
  (forall cur, allChars p cur = true ->
               Forall (fun w => allChars p w = true) (JS.splitTok cur s))
  /\ Forall (fun w => allChars p w = true) (JS.splitSep s).
Proof.
  induction s as [|c s IH]; cbn [allChars JS.splitTok JS.splitSep].
  - intros _. split; [intros cur H|]; repeat constructor; assumption.
  - intros H. apply andb_true_iff in H. destruct H as [Hc Hs].
    destruct (IH Hs) as [IHt IHs]. clear IH.
    destruct (JS.isWhiteSpace c) eqn:Ews; cbn [orb] in Hc.
    + split; [intros cur H; constructor|]; assumption.
    + split.
      * intros cur H. apply IHt. rewrite allChars_app, H. cbn. now rewrite Hc.
      * apply IHt. cbn. now rewrite Hc.
Qed.

Lemma normalised_char (c : ascii) :
  let c1 := JS.lowerChar c in
  let c2 := if JS.isWordChar c1 || JS.isWhiteSpace c1 then c1 else " "%char in
  JS.isWhiteSpace c2 || tokenChar c2 = true.
Proof. destruct c as [[] [] [] [] [] [] [] []]; reflexivity. Qed.

Lemma normalised_chars (text : string) :
  allChars (fun c => JS.isWhiteSpace c || tokenChar c)
           (JS.replaceNonWord (JS.toLowerCase text)) = true.
Proof.
  induction text as [|c text IH]; [reflexivity|].
  unfold JS.replaceNonWord, JS.toLowerCase in *. cbn [JS.mapChars allChars].
  rewrite IH, andb_true_r. apply normalised_char.
Qed.

Lemma longWords_shape (text w : string) :
  In w (longWords text) ->
  3 < String.length w /\ allChars tokenChar w = true.
Proof.
  unfold longWords. rewrite filter_In. intros [Hin Hlen]. split.
  - now apply Nat.ltb_lt.
  - destruct (split_pieces tokenChar _ (normalised_chars text)) as [Ht _].
    specialize (Ht EmptyString eq_refl). rewrite Forall_forall in Ht.
    now apply Ht.
Qed.

Lemma byFrequency_counts (words : list string) (a b : string) :
  byFrequency (a, Obj.VNum (frequency words a)) (b, Obj.VNum (frequency words b))
  = byCount words a b.
Proof. reflexivity. Qed.

Lemma extract_by_count (text : string) :
  ~ In "constructor" (longWords text) ->
  extractBasicKeywords text
  = firstn 10 (JS.sort (byCount (longWords text)) (tableOrder (longWords text))).
Proof.
  intros Hc. unfold extractBasicKeywords, JS.slice0.
  rewrite entries_table.
  rewrite (map_ext_in _ (fun k => (k, Obj.VNum (frequency (longWords text) k)))).
  - rewrite (sort_map _ _ (fun k => (k, Obj.VNum (frequency (longWords text) k)))
               byFrequency (byCount (longWords text)))
      by (intros a b; apply byFrequency_counts).
    rewrite firstn_map. apply map_fst_names.
  - intros k Hk. unfold valueOf.
    destruct (String.eqb_spec k "constructor") as [->|]; [|reflexivity].
    apply In_tableOrder in Hk. tauto.
Qed.

(** C6 at concrete inputs: a hyphen is replaced by a space and so
    separates two words where the specification joins them, an underscore
    is kept, and numerals come before the words that appear before them. *)
Lemma C6_extractor_differs_from_wording :
  extractBasicKeywords "well-known facts" = ["well"; "known"; "facts"]
  /\ AsWorded.extract "well-known facts" = ["wellknown"; "facts"]
  /\ extractBasicKeywords "snake_case" = ["snake_case"]
  /\ AsWorded.extract "snake_case" = ["snakecase"]
  /\ extractBasicKeywords "zeta 2024 1999" = ["1999"; "2024"; "zeta"]
  /\ AsWorded.extract "zeta 2024 1999" = ["zeta"; "2024"; "1999"]
  /\ extractBasicKeywords "well-known facts" <> AsWorded.extract "well-known facts".
Proof.
  repeat split; try (vm_compute; reflexivity).
  vm_compute. discriminate.
Qed.

(** C6, amended.  Whatever the content, the fallback extractor
    lower-cases it, replaces every character outside [A-Za-z0-9_] and
    white space by a space, splits at white space
    and drops the words of length three or less, so that the words left
    are made of [a-z0-9_].  It counts the frequency of each word;
    the names of the table are the array-index numerals in
    ascending order followed by the other words in the order they first
    appear, [__proto__] never being a name.  When [constructor] is not
    among the words, the keywords are the first ten names after sorting
    by descending frequency, names of one frequency keeping the order of
    the table. *)
Theorem C6_fallback_keywords_by_frequency :
  forall text : string,
    let words := longWords text in
    let names := firstSeen (filter notProto words) in
    (forall w, In w words -> 3 < String.length w /\ allChars tokenChar w = true)
    /\ (exists numerals,
           tableOrder words
           = numerals ++ filter (fun w => negb (isNumeral w)) names
           /\ Permutation numerals (filter isNumeral names)
           /\ StronglySorted
                (fun a b => (numeralValue a <= numeralValue b)%N) numerals)
    /\ (~ In "constructor" words ->
        exists ranked,
          extractBasicKeywords text = firstn 10 ranked
          /\ Permutation ranked (tableOrder words)
          /\ StronglySorted
               (fun a b => (frequency words b <= frequency words a)%Z) ranked
          /\ (forall n : Z,
                 filter (fun w => Z.eqb (frequency words w) n) ranked
                 = filter (fun w => Z.eqb (frequency words w) n)
                          (tableOrder words))).
Proof.
  intros text words names. split; [|split].
  - intros w. apply longWords_shape.
  - exists (fold_right insertNumeral [] (filter isNumeral names)).
    split; [reflexivity|].
    split; [apply sortNumerals_perm | apply sortNumerals_sorted].
  - intros Hc. exists (JS.sort (byCount words) (tableOrder words)).
    split; [now apply extract_by_count|].
    split; [apply sort_perm|].
    split.
    + apply (sort_sorted _ (frequency words) (byCount words)).
      reflexivity.
    + intros n. apply (sort_stable _ (frequency words) (byCount words)).
      reflexivity.
Qed.

Lemma C6_fallback_keywords_witness :
  ~ In "constructor" (longWords "zeta 2024 beta zeta 1999")
  /\ exists ranked,
       extractBasicKeywords "zeta 2024 beta zeta 1999" = firstn 10 ranked
       /\ Permutation ranked (tableOrder (longWords "zeta 2024 beta zeta 1999")).
Proof.
  assert (Hc : ~ In "constructor" (longWords "zeta 2024 beta zeta 1999")).
  { vm_compute. intros H. repeat (destruct H as [H|H]; [discriminate|]).
    exact H. }
  split; [exact Hc|].
  destruct (proj2 (proj2 (C6_fallback_keywords_by_frequency
                            "zeta 2024 beta zeta 1999")) Hc)
    as [ranked [H1 [H2 _]]].
  exists ranked. split; assumption.
Defined.

(* ------------------------------------------------------------------ *)
(** *** The scenario of the fox                                        *)
(* ------------------------------------------------------------------ *)

(** C7 at its own input: [fox] has three letters and is not a
    keyword, and the query [brown fox] gives the record the score 1. *)
Lemma C7_fox_is_not_a_keyword :
  ~ In "fox" (extractBasicKeywords foxSentence)
  /\ findRelevantIndexEntries [fallbackEntry garbledWorld foxSentence] "brown fox"
     = [withScore (fallbackEntry garbledWorld foxSentence) 1]
  /\ ~ (2 <= relevance (queryWordsOf "brown fox")
                       (fallbackEntry garbledWorld foxSentence))%Z.
Proof.
  split; [|split].
  - vm_compute. intros H. repeat (destruct H as [H|H]; [discriminate|]).
    exact H.
  - vm_compute. reflexivity.
  - vm_compute. intros H. now apply H.
Qed.

(** C7, amended.  Indexing the sentence of the fox through the fallback
    extractor gives the keywords quick, brown, jumps, over and lazy (the,
    fox and dog have three letters and are dropped), and the query
    [brown fox] then returns that record with the relevance score 1. *)
Theorem C7_fox_scenario :
  extractBasicKeywords foxSentence = ["quick"; "brown"; "jumps"; "over"; "lazy"]
  /\ (forall w : World,
         keywords (fallbackEntry w foxSentence)
         = ["quick"; "brown"; "jumps"; "over"; "lazy"]
         /\ relevance (queryWordsOf "brown fox") (fallbackEntry w foxSentence)
            = 1%Z
         /\ findRelevantIndexEntries [fallbackEntry w foxSentence] "brown fox"
            = [withScore (fallbackEntry w foxSentence) 1])
  /\ documentIndex
       (snd (parseAndIndexContent garbledWorld readyState foxSentence readyState))
     = [fallbackEntry garbledWorld foxSentence].
Proof.
  split; [vm_compute; reflexivity|]. split.
  - intros w. split; [vm_compute; reflexivity|].
    split; vm_compute; reflexivity.
  - vm_compute. reflexivity.
Qed.

(* ------------------------------------------------------------------ *)
(** *** The context string                                             *)
(* ------------------------------------------------------------------ *)

Lemma endsWith_spec (s t : string) : endsWith s t = true <-> EndsWith s t.
Proof.
  unfold EndsWith. induction s as [|c s IH]; cbn [endsWith].
  - rewrite orb_false_r, String.eqb_eq. split.
    + intros <-. now exists EmptyString.
    + intros [pre H]. destruct pre; [exact H | discriminate].
  - rewrite orb_true_iff, String.eqb_eq, IH. split.
    + intros [<-|[pre H]]; [now exists EmptyString|].
      exists (String c pre). cbn. now rewrite H.
    + intros [pre H]. destruct pre as [|c' pre]; [now left|].
      right. cbn in H. injection H as _ H. now exists pre.
Qed.

Lemma substring0_prefix (n : nat) (s : string) :
  exists rest, s = (JS.substring0 n s ++ rest)%string
               /\ String.length (JS.substring0 n s) = Nat.min n (String.length s).
Proof.
  unfold JS.substring0. revert s. induction n as [|n IH]; intros s.
  - exists s. destruct s; split; reflexivity.
  - destruct s as [|c s]; [exists EmptyString; split; reflexivity|].
    destruct (IH s) as [rest [H1 H2]]. exists rest. cbn [substring].
    split; [cbn; now rewrite <- H1 | cbn; now rewrite H2].
Qed.

(** C8 at a concrete input: the context built for the query
    [hello] does not end with the query; a fixed request follows it. *)
Lemma C8_query_is_not_last :
  ~ EndsWith (buildEnhancedContext [] "hello") "hello"
  /\ EndsWith (buildEnhancedContext [] "hello")
              "demonstrates advanced reasoning capabilities.".
Proof.
  split.
  - intros H. apply endsWith_spec in H. vm_compute in H. discriminate.
  - apply endsWith_spec. vm_compute. reflexivity.
Qed.

(** C8, amended.  Whatever the query and the index, the context is the
    preamble, which reports the size of the index, then a block of
    relevant content, present exactly when [findRelevantIndexEntries]
    returns something and listing each returned record, in ranked order,
    as [- [id] first 200 characters of the content... (Keywords:
    comma-joined keywords)], then the processing instructions ending in
    the label [USER QUERY: ], the literal query, and a fixed closing
    request after it. *)
Theorem C8_context_layout :
  forall (documentIndex : list IndexEntry) (userQuery : string),
    let relevant := findRelevantIndexEntries documentIndex userQuery in
    (exists block,
        buildEnhancedContext documentIndex userQuery
        = (contextPreamble (N.of_nat (List.length documentIndex)) ++ block
           ++ contextInstructions ++ userQuery ++ contextClosing)%string
        /\ (block = EmptyString <-> relevant = [])
        /\ (relevant <> [] ->
            block = ("RELEVANT INDEXED CONTENT:" ++ nl
                     ++ JS.join nl (map entryLine relevant) ++ nl ++ nl)%string))
    /\ Substring
         ("- Active Index Entries: "
          ++ JS.numberToString (N.of_nat (List.length documentIndex)) ++ nl)
         (contextPreamble (N.of_nat (List.length documentIndex)))
    /\ NilEmpty.uint_of_string
         (JS.numberToString (N.of_nat (List.length documentIndex)))
       = Some (N.to_uint (N.of_nat (List.length documentIndex)))
    /\ (forall entry,
           exists shown rest,
             entryLine entry
             = ("- [" ++ id entry ++ "] " ++ shown ++ "... (Keywords: "
                ++ JS.join ", " (keywords entry) ++ ")")%string
             /\ content entry = (shown ++ rest)%string
             /\ String.length shown
                = Nat.min 200 (String.length (content entry)))
    /\ EndsWith contextInstructions "USER QUERY: "
    /\ EndsWith (buildEnhancedContext documentIndex userQuery) contextClosing.
Proof.
  intros documentIndex userQuery relevant.
  split; [|split; [|split; [|split; [|split]]]].
  - unfold buildEnhancedContext. fold relevant.
    destruct relevant as [|r l] eqn:E.
    + exists EmptyString. cbn [List.length Nat.ltb Nat.leb].
      split; [reflexivity|]. split; [tauto|]. congruence.
    + exists (relevantBlock (r :: l)). cbn [List.length Nat.ltb Nat.leb].
      split; [now rewrite string_app_assoc|].
      split; [split; discriminate|]. intros _. reflexivity.
  - exists (JS.substring0 (String.length preambleHead - 24) preambleHead),
      (String.substring 1 (String.length preambleTail - 1) preambleTail).
    unfold contextPreamble.
    assert (Hh : preambleHead
                 = (JS.substring0 (String.length preambleHead - 24) preambleHead
                    ++ "- Active Index Entries: ")%string)
      by (vm_compute; reflexivity).
    assert (Ht : preambleTail
                 = (nl ++ String.substring 1 (String.length preambleTail - 1)
                                           preambleTail)%string)
      by (vm_compute; reflexivity).
    rewrite Hh at 1. rewrite Ht at 1.
    now rewrite !string_app_assoc.
  - apply NilEmpty.usu.
  - intros entry. destruct (substring0_prefix 200 (content entry)) as [rest [H1 H2]].
    exists (JS.substring0 200 (content entry)), rest.
    split; [reflexivity|]. split; assumption.
  - apply endsWith_spec. vm_compute. reflexivity.
  - exists (match relevant with
            | [] => contextPreamble (N.of_nat (List.length documentIndex))
            | _ => (contextPreamble (N.of_nat (List.length documentIndex))
                    ++ relevantBlock relevant)%string
            end ++ contextInstructions ++ userQuery)%string.
    unfold buildEnhancedContext. fold relevant.
    destruct relevant; cbn [List.length Nat.ltb Nat.leb];
      now rewrite !string_app_assoc.
Qed.

(* ------------------------------------------------------------------ *)
(** *** Retrieval leaves the index alone                               *)
(* ------------------------------------------------------------------ *)

Lemma deref_old (h new : Store.heap) (r : Store.ref) :
  r < List.length h -> Store.deref (h ++ new) r = Store.deref h r.
Proof. intros H. unfold Store.deref. now apply app_nth1. Qed.

Lemma valuesOf_old (h new : Store.heap) (refs : list Store.ref) :
  ValidRefs h refs -> valuesOf (h ++ new) refs = valuesOf h refs.
Proof.
  unfold ValidRefs, valuesOf. intros H. apply map_ext_in. intros r Hr.
  rewrite Forall_forall in H. now apply deref_old, H.
Qed.

Lemma valuesOf_new (h new : Store.heap) :
  valuesOf (h ++ new) (seq (List.length h) (List.length new)) = new.
Proof.
  unfold valuesOf, Store.deref. revert h.
  induction new as [|x new IH]; intros h; [reflexivity|].
  cbn [List.length seq map]. rewrite nth_middle. f_equal.
  specialize (IH (h ++ [x])). rewrite <- app_assoc in IH. cbn [app] in IH.
  rewrite length_app in IH. cbn [List.length] in IH.
  now rewrite Nat.add_1_r in IH.
Qed.

(** The copies [map] allocates: they are appended to the store, at the
    addresses that follow it. *)
Lemma mapWithScore_spec (queryWords : list string) (refs : list Store.ref)
    (h : Store.heap) :
  ValidRefs h refs ->
  Store.mapWithScore queryWords refs h
  = (seq (List.length h) (List.length refs),
     h ++ map (fun entry => withScore entry (relevance queryWords entry))
              (valuesOf h refs)).
Proof.
  revert h. induction refs as [|r refs IH]; intros h Hv.
  - cbn. now rewrite app_nil_r.
  - inversion Hv as [|? ? Hr Hv']; subst.
    cbn [Store.mapWithScore Store.alloc].
    rewrite IH.
    + rewrite length_app. cbn [List.length]. rewrite Nat.add_1_r.
      rewrite valuesOf_old by exact Hv'.
      cbn [seq valuesOf map]. now rewrite <- app_assoc.
    + unfold ValidRefs in *. rewrite Forall_forall in *. intros x Hx.
      rewrite length_app. specialize (Hv' x Hx). lia.
Qed.

Lemma filter_map_comm (A B : Type) (f : A -> B) (p : B -> bool) (l : list A) :
  map f (filter (fun x => p (f x)) l) = filter p (map f l).
Proof.
  induction l as [|x l IH]; [reflexivity|]. cbn [filter map].
  destruct (p (f x)); cbn [map]; now rewrite IH.
Qed.

(** Running on the store and reading the result gives what the function
    on values gives; the store only grows. *)
Lemma store_refines (documentIndex : list Store.ref) (query : string)
    (h : Store.heap) :
  ValidRefs h documentIndex ->
  exists copies,
    snd (Store.findRelevantIndexEntries documentIndex query h) = h ++ copies
    /\ List.length copies = List.length documentIndex
    /\ valuesOf (h ++ copies)
                (fst (Store.findRelevantIndexEntries documentIndex query h))
       = findRelevantIndexEntries (valuesOf h documentIndex) query
    /\ incl (fst (Store.findRelevantIndexEntries documentIndex query h))
            (seq (List.length h) (List.length copies))
    /\ Forall (fun entry => relevanceScore entry <> None) copies.
Proof.
  intros Hv. unfold Store.findRelevantIndexEntries.
  rewrite mapWithScore_spec by exact Hv.
  set (copies := map (fun entry => withScore entry
                        (relevance (queryWordsOf query) entry))
                     (valuesOf h documentIndex)).
  assert (Hlen : List.length copies = List.length documentIndex)
    by (unfold copies, valuesOf; now rewrite !length_map).
  exists copies. cbn [fst snd]. split; [reflexivity|]. split; [exact Hlen|].
  split; [|split].
  - unfold valuesOf at 1, JS.slice0. rewrite <- firstn_map.
    rewrite <- (sort_map _ _ (Store.deref (h ++ copies)) byScore
                  (fun a b => byScore (Store.deref (h ++ copies) a)
                                      (Store.deref (h ++ copies) b)))
      by reflexivity.
    rewrite (filter_map_comm _ _ (Store.deref (h ++ copies)) scorePositive).
    rewrite <- Hlen. fold (valuesOf (h ++ copies)
                             (seq (List.length h) (List.length copies))).
    rewrite valuesOf_new. reflexivity.
  - intros r Hr. unfold JS.slice0 in Hr. apply In_firstn in Hr.
    apply sort_In in Hr. apply filter_In in Hr. rewrite Hlen. tauto.
  - unfold copies. rewrite Forall_forall. intros e He.
    apply in_map_iff in He. destruct He as [e0 [<- _]]. discriminate.
Qed.

Lemma ValidRefs_grow (h new : Store.heap) (refs : list Store.ref) :
  ValidRefs h refs -> ValidRefs (h ++ new) refs.
Proof.
  unfold ValidRefs. rewrite !Forall_forall. intros H r Hr.
  rewrite length_app. specialize (H r Hr). lia.
Qed.

(** C9.  [findRelevantIndexEntries] is a function of the query and the
    index, so that two calls on the same pair give the same ordered
    result; run on a store of objects, it leaves every object that was
    there as it was, in particular those of the index, whose entries stay
    without change; the score is put on newly allocated copies only, which
    are all the function returns, and a second call returns records equal
    to those of the first. *)
Theorem C9_retrieval_has_no_side_effect :
  forall (h : Store.heap) (documentIndex : list Store.ref) (query : string),
    ValidRefs h documentIndex ->
    let result := fst (Store.findRelevantIndexEntries documentIndex query h) in
    let h' := snd (Store.findRelevantIndexEntries documentIndex query h) in
    let result2 := fst (Store.findRelevantIndexEntries documentIndex query h') in
    let h'' := snd (Store.findRelevantIndexEntries documentIndex query h') in
    (forall r, r < List.length h -> Store.deref h' r = Store.deref h r)
    /\ valuesOf h' documentIndex = valuesOf h documentIndex
    /\ (forall r, In r result ->
                  List.length h <= r < List.length h'
                  /\ relevanceScore (Store.deref h' r) <> None)
    /\ valuesOf h' result
       = findRelevantIndexEntries (valuesOf h documentIndex) query
    /\ valuesOf h'' result2 = valuesOf h' result
    /\ valuesOf h'' result = valuesOf h' result
    /\ valuesOf h'' documentIndex = valuesOf h documentIndex.
Proof.
  intros h documentIndex query Hv result h' result2 h''.
  destruct (store_refines documentIndex query h Hv)
    as [copies [Hh [Hlen [Hval [Hincl Hscore]]]]].
  fold h' in Hh. fold result in Hval, Hincl. rewrite <- Hh in Hval.
  assert (Hv' : ValidRefs h' documentIndex)
    by (rewrite Hh; now apply ValidRefs_grow).
  destruct (store_refines documentIndex query h' Hv')
    as [copies2 [Hh2 [Hlen2 [Hval2 [Hincl2 Hscore2]]]]].
  fold h'' in Hh2. fold result2 in Hval2, Hincl2. rewrite <- Hh2 in Hval2.
  assert (Hold : valuesOf h' documentIndex = valuesOf h documentIndex)
    by (rewrite Hh; now apply valuesOf_old).
  assert (Hfresh : forall r, In r result ->
                     List.length h <= r < List.length h').
  { intros r Hr. apply Hincl in Hr. apply in_seq in Hr.
    rewrite Hh, length_app. lia. }
  split; [intros r Hr; rewrite Hh; now apply deref_old|].
  split; [exact Hold|].
  split.
  { intros r Hr. split; [now apply Hfresh|].
    pose proof (Hincl r Hr) as Hs. apply in_seq in Hs.
    rewrite Hh. unfold Store.deref. rewrite app_nth2 by lia.
    rewrite Forall_forall in Hscore. apply Hscore. apply nth_In. lia. }
  split; [exact Hval|].
  split; [now rewrite Hval2, Hold, Hval|].
  split.
  { rewrite Hh2. apply valuesOf_old. unfold ValidRefs.
    rewrite Forall_forall. intros r Hr. now apply Hfresh. }
  rewrite Hh2, valuesOf_old by exact Hv'. exact Hold.
Qed.

Lemma C9_retrieval_witness :
  ValidRefs twoEntries [0; 1]
  /\ valuesOf (snd (Store.findRelevantIndexEntries [0; 1] "rust cargo" twoEntries))
              [0; 1]
     = valuesOf twoEntries [0; 1].
Proof.
  assert (Hv : ValidRefs twoEntries [0; 1])
    by (repeat constructor).
  split; [exact Hv|].
  exact (proj1 (proj2 (C9_retrieval_has_no_side_effect
                         twoEntries [0; 1] "rust cargo" Hv))).
Defined.

(* ------------------------------------------------------------------ *)
(** *** Sending a message                                              *)
(* ------------------------------------------------------------------ *)

Lemma trimStart_blank (s : string) :
  allChars JS.isWhiteSpace s = true -> JS.trimStart s = EmptyString.
Proof.
  induction s as [|c s IH]; [reflexivity|]. cbn [allChars JS.trimStart].
  intros H. apply andb_true_iff in H. destruct H as [Hc Hs].
  rewrite Hc. now apply IH.
Qed.

Lemma trimStart_empty (s : string) :
  JS.trimStart s = EmptyString -> allChars JS.isWhiteSpace s = true.
Proof.
  induction s as [|c s IH]; [reflexivity|]. cbn [allChars JS.trimStart].
  destruct (JS.isWhiteSpace c); [exact IH | discriminate].
Qed.

Lemma trimStart_head (s : string) :
  match JS.trimStart s with
  | EmptyString => True
  | String c _ => JS.isWhiteSpace c = false
  end.
Proof.
  induction s as [|c s IH]; [exact I|]. cbn [JS.trimStart].
  destruct (JS.isWhiteSpace c) eqn:E; [exact IH | exact E].
Qed.

Lemma trimEnd_empty (s : string) :
  JS.trimEnd s = EmptyString <-> allChars JS.isWhiteSpace s = true.
Proof.
  induction s as [|c s IH]; [split; reflexivity|].
  cbn [JS.trimEnd allChars]. destruct (JS.trimEnd s) as [|d t].
  - destruct (JS.isWhiteSpace c); cbn [andb].
    + split; [intros _; now apply IH | reflexivity].
    + split; discriminate.
  - split; [discriminate|]. intros H. apply andb_true_iff in H.
    destruct H as [_ H]. apply IH in H. discriminate.
Qed.

(** A text trims to nothing exactly when it is blank. *)
Lemma trim_empty_iff (s : string) :
  JS.trim s = EmptyString <-> Blank s.
Proof.
  unfold JS.trim, Blank. split.
  - intros H. apply trimEnd_empty in H. pose proof (trimStart_head s) as Hh.
    destruct (JS.trimStart s) as [|c t] eqn:E; [now apply trimStart_empty|].
    cbn [allChars] in H. rewrite Hh in H. discriminate.
  - intros H. now rewrite (trimStart_blank _ H).
Qed.

Lemma parseAndIndexContent_state (w : World) (render : ChatState)
    (content : string) (st : ChatState) :
  snd (parseAndIndexContent w render content st)
  = {| messages := messages st ++ storedNotices w render content;
       inputValue := inputValue st;
       apiKey := apiKey st;
       documentIndex := documentIndex st ++ storedEntries w render content;
       isIndexing := false |}.
Proof. now rewrite parseAndIndexContent_run. Qed.

Lemma handleSendMessage_state (w : World) (render st : ChatState) :
  String.eqb (JS.trim (inputValue render)) EmptyString || noApiKey render
  = false ->
  handleSendMessage w render st
  = (Done tt,
     {| messages :=
          messages render ++ [userMessage w render]
          ++ match contentToIndex (inputValue render) with
             | Some content => storedNotices w render content
             | None => []
             end
          ++ [ {| Message.id := Z.of_nat (List.length (messages render)) + 2;
                  Message.text := replyText (answerOf w render);
                  Message.isUser := false;
                  Message.timestamp := Z.of_N (dateNow w);
                  Message.context :=
                    match answerOf w render with
                    | Some _ =>
                        Some (if Nat.ltb 0 (List.length (documentIndex render))
                              then "enhanced_context" else "standard")
                    | None => None
                    end |} ];
        inputValue := EmptyString;
        apiKey := apiKey st;
        documentIndex :=
          documentIndex st
          ++ match contentToIndex (inputValue render) with
             | Some content => storedEntries w render content
             | None => []
             end;
        isIndexing :=
          match contentToIndex (inputValue render) with
          | Some _ => false
          | None => isIndexing st
          end |}).
Proof.
  intros Hguard. unfold handleSendMessage. rewrite Hguard.
  unfold bind at 1. cbn [setMessages]. unfold bind at 1.
  fold (userMessage w render).
  destruct (contentToIndex (inputValue render)) as [content|].
  - match goal with
    | |- context [parseAndIndexContent w render content ?s] =>
        pose proof (parseAndIndexContent_state w render content s) as Hs;
        pose proof (parseAndIndexContent_done w render content s) as Hd;
        destruct (parseAndIndexContent w render content s) as [r s1]
    end.
    cbn [fst snd] in Hs, Hd. subst r s1.
    cbn [messages inputValue apiKey documentIndex isIndexing].
    unfold bind, tryCatch, await, answerOf, replyText. cbn [setInputValue].
    destruct (streamCompletion w _ _) as [text|];
      cbv [ret throw setMessages messages inputValue apiKey documentIndex
           isIndexing];
      rewrite <- !app_assoc; reflexivity.
  - unfold ret, bind, tryCatch, await, answerOf, replyText.
    cbn [setInputValue].
    destruct (streamCompletion w _ _) as [text|];
      cbv [ret throw setMessages messages inputValue apiKey documentIndex
           isIndexing];
      rewrite ?app_nil_r, <- ?app_assoc; reflexivity.
Qed.

(** X1.  A message that is empty or made of white space only, or a
    missing key, makes [handleSendMessage] return at once: nothing is
    posted, nothing is indexed, and the text typed in stays. *)
Theorem X1_blank_or_keyless_message_is_ignored :
  forall (w : World) (render st : ChatState),
    Blank (inputValue render) \/ noApiKey render = true ->
    handleSendMessage w render st = (Done tt, st).
Proof.
  intros w render st H. unfold handleSendMessage.
  assert (Hg : String.eqb (JS.trim (inputValue render)) EmptyString
               || noApiKey render = true).
  { destruct H as [H|H].
    - apply trim_empty_iff in H. rewrite H. reflexivity.
    - rewrite H. apply orb_true_r. }
  now rewrite Hg.
Qed.

Lemma X1_blank_message_witness :
  Blank (inputValue (typed "   "))
  /\ handleSendMessage garbledWorld (typed "   ") (typed "   ")
     = (Done tt, typed "   ").
Proof.
  assert (Hb : Blank (inputValue (typed "   "))) by reflexivity.
  split; [exact Hb|].
  exact (X1_blank_or_keyless_message_is_ignored
           garbledWorld (typed "   ") (typed "   ") (or_introl Hb)).
Defined.

Lemma guard_passes (render : ChatState) :
  ~ Blank (inputValue render) -> HasKey render ->
  String.eqb (JS.trim (inputValue render)) EmptyString || noApiKey render
  = false.
Proof.
  intros Hb Hk. unfold HasKey in Hk. rewrite Hk, orb_false_r.
  apply String.eqb_neq. intros H. apply Hb. now apply trim_empty_iff.
Qed.

Lemma storedNotices_short (w : World) (render : ChatState) (content : string) :
  List.length (storedNotices w render content) <= 1
  /\ Forall (fun m => Message.isUser m = false)
            (storedNotices w render content).
Proof.
  unfold storedNotices. destruct (noApiKey render); [split; auto|].
  destruct (createCompletion w _) as [response|]; [|split; auto].
  destruct (parseAnalysis w _) as [analysis|]; [|split; auto].
  destruct (summaryText analysis); split; cbn; auto.
Qed.

(** X2.  A message that is not blank, sent with a key set, never makes
    [handleSendMessage] throw: the text typed in is cleared, and the
    messages become those of the render followed by the message of
    the user, at most one notice of indexing, and exactly one reply.  The
    reply is not from the user and has the next identifier; it carries no
    context exactly when the completion call fails, and then its text is
    the error text; it is the no-response text when the model answers with
    the empty text, and the answer of the model otherwise. *)
Theorem X2_accepted_message_gets_one_reply :
  forall (w : World) (render st : ChatState),
    ~ Blank (inputValue render) -> HasKey render ->
    let st' := snd (handleSendMessage w render st) in
    fst (handleSendMessage w render st) = Done tt
    /\ inputValue st' = EmptyString
    /\ apiKey st' = apiKey st
    /\ exists notices reply,
         messages st'
         = messages render ++ [userMessage w render] ++ notices ++ [reply]
         /\ List.length notices <= 1
         /\ Forall (fun m => Message.isUser m = false) notices
         /\ Message.isUser reply = false
         /\ Message.id reply = (Message.id (userMessage w render) + 1)%Z
         /\ (Message.context reply = None <-> answerOf w render = None)
         /\ (answerOf w render = None ->
             Message.text reply = Plain completionErrorText)
         /\ (answerOf w render = Some EmptyString ->
             Message.text reply = Plain noResponseText)
         /\ (forall answer,
                answerOf w render = Some answer -> answer <> EmptyString ->
                Message.text reply = Plain answer).
Proof.
  intros w render st Hb Hk st'. subst st'.
  rewrite (handleSendMessage_state w render st (guard_passes render Hb Hk)).
  cbn [fst snd messages inputValue apiKey].
  split; [reflexivity|]. split; [reflexivity|]. split; [reflexivity|].
  eexists. eexists. split; [reflexivity|].
  cbn [Message.isUser Message.id Message.text Message.context userMessage].
  split; [|split; [|split; [reflexivity|split; [lia|]]]].
  - destruct (contentToIndex (inputValue render));
      [apply storedNotices_short | cbn; lia].
  - destruct (contentToIndex (inputValue render));
      [apply storedNotices_short | constructor].
  - unfold replyText. destruct (answerOf w render) as [text|].
    + split; [split; discriminate|]. split; [discriminate|]. split.
      * intros H. injection H as ->. reflexivity.
      * intros answer H Hne. injection H as ->.
        apply String.eqb_neq in Hne. now rewrite Hne.
    + split; [split; reflexivity|]. split; [reflexivity|].
      split; [discriminate|]. intros answer H. discriminate H.
Qed.

Lemma X2_accepted_message_witness :
  ~ Blank (inputValue (typed "hello there"))
  /\ HasKey (typed "hello there")
  /\ inputValue (snd (handleSendMessage offlineWorld (typed "hello there")
                        (typed "hello there"))) = EmptyString.
Proof.
  assert (Hb : ~ Blank (inputValue (typed "hello there")))
    by (intros H; discriminate H).
  assert (Hk : HasKey (typed "hello there")) by reflexivity.
  split; [exact Hb|]. split; [exact Hk|].
  exact (proj1 (proj2 (X2_accepted_message_gets_one_reply
                         offlineWorld (typed "hello there")
                         (typed "hello there") Hb Hk))).
Defined.

(* ------------------------------------------------------------------ *)
(** *** What the handlers do to the index                              *)
(* ------------------------------------------------------------------ *)

Lemma storedEntries_shape (w : World) (render : ChatState) (text : string) :
  List.length (storedEntries w render text) <= 2
  /\ Forall (fun entry => relevanceScore entry = None
                          /\ content entry = text
                          /\ id entry = newEntryId w)
            (storedEntries w render text).
Proof.
  unfold storedEntries. destruct (noApiKey render); [split; auto|].
  destruct (createCompletion w _) as [response|]; [|split; auto].
  destruct (parseAnalysis w _) as [analysis|]; [|split; cbn; auto].
  destruct (summaryText analysis); split; cbn; auto.
Qed.

Lemma clearIndex_state (w : World) (st : ChatState) :
  clearIndex w st
  = (Done tt,
     {| messages :=
          messages st
          ++ [ {| Message.id := Z.of_N (dateNow w);
                  Message.text := ClearedNotice;
                  Message.isUser := false;
                  Message.timestamp := Z.of_N (dateNow w);
                  Message.context := Some "system_clear" |} ];
        inputValue := inputValue st;
        apiKey := apiKey st;
        documentIndex := [];
        isIndexing := isIndexing st |}).
Proof. reflexivity. Qed.

(** X3.  The relevance score is never kept in the index: when no entry
    of the index carries a score, none does after an indexing operation,
    after a message is handled, or after the index is cleared. *)
Theorem X3_index_stays_score_free :
  forall (w : World) (render st : ChatState) (content : string),
    ScoreFree (documentIndex st) ->
    ScoreFree (documentIndex (snd (parseAndIndexContent w render content st)))
    /\ ScoreFree (documentIndex (snd (handleSendMessage w render st)))
    /\ ScoreFree (documentIndex (snd (clearIndex w st))).
Proof.
  intros w render st content H. unfold ScoreFree in *.
  assert (Hs : forall c, Forall (fun entry => relevanceScore entry = None)
                                (storedEntries w render c)).
  { intros c. destruct (storedEntries_shape w render c) as [_ Hf].
    rewrite Forall_forall in *. intros e He. now apply Hf. }
  split; [|split].
  - rewrite parseAndIndexContent_index. apply Forall_app. split; auto.
  - rewrite handleSendMessage_index. apply Forall_app. split; [exact H|].
    destruct (_ || _); [constructor|].
    destruct (contentToIndex (inputValue render)); [apply Hs | constructor].
  - rewrite clearIndex_state. constructor.
Qed.

Lemma X3_index_score_free_witness :
  ScoreFree (documentIndex (typed "index this: brown foxes"))
  /\ ScoreFree (documentIndex
                  (snd (handleSendMessage garbledWorld
                          (typed "index this: brown foxes")
                          (typed "index this: brown foxes")))).
Proof.
  assert (H : ScoreFree (documentIndex (typed "index this: brown foxes")))
    by constructor.
  split; [exact H|].
  exact (proj1 (proj2 (X3_index_stays_score_free garbledWorld
                         (typed "index this: brown foxes")
                         (typed "index this: brown foxes")
                         "brown foxes" H))).
Defined.

(** X4.  One indexing operation keeps every entry of the index in its
    place and appends at most two, each with the text it was given as
    content.  It appends two exactly when the answer of the model parses
    but its summary cannot be turned into text: the entry of the analysis
    is followed by the fallback entry, and no notice is posted.  It posts
    a notice exactly when it appends the entry of the analysis alone, and
    the notice reports the number of keywords of that entry.  It leaves
    the text typed in and the key alone and ends with the in-progress flag
    off. *)
Theorem X4_indexing_appends_at_most_two :
  forall (w : World) (render : ChatState) (text : string) (st : ChatState),
    let st' := snd (parseAndIndexContent w render text st) in
    exists added notices,
      documentIndex st' = documentIndex st ++ added
      /\ messages st' = messages st ++ notices
      /\ List.length added <= 2
      /\ List.length notices <= 1
      /\ Forall (fun entry => content entry = text) added
      /\ (List.length added = 2 <->
          HasKey render
          /\ exists response analysis,
               createCompletion w (analysisPrompt text) = Some response
               /\ parseAnalysis w (orEmpty response) = Some analysis
               /\ summaryText analysis = None)
      /\ (List.length added = 2 ->
          notices = []
          /\ exists analysis,
               added = [analysedEntry w text analysis; fallbackEntry w text])
      /\ (forall m, In m notices ->
            exists analysis summary,
              added = [analysedEntry w text analysis]
              /\ Message.text m
                 = IndexedNotice
                     (List.length (keywords (analysedEntry w text analysis)))
                     summary)
      /\ inputValue st' = inputValue st
      /\ apiKey st' = apiKey st
      /\ isIndexing st' = false.
Proof.
  intros w render text st st'. subst st'.
  rewrite parseAndIndexContent_run.
  cbn [snd messages inputValue apiKey documentIndex isIndexing].
  exists (storedEntries w render text), (storedNotices w render text).
  split; [reflexivity|]. split; [reflexivity|].
  split; [apply storedEntries_shape|].
  split; [apply storedNotices_short|].
  split.
  { destruct (storedEntries_shape w render text) as [_ Hf].
    rewrite Forall_forall in *. intros e He. now apply Hf. }
  split; [|split; [|split; [|repeat split]]].
  - unfold storedEntries, HasKey. destruct (noApiKey render).
    { split; [discriminate|]. intros [H _]. discriminate H. }
    destruct (createCompletion w _) as [response|].
    2:{ split; [discriminate|]. intros [_ [r [a [H _]]]]. discriminate H. }
    destruct (parseAnalysis w _) as [analysis|] eqn:Hp.
    2:{ split; [discriminate|].
        intros [_ [r [a [Hr [Ha _]]]]]. injection Hr as <-. congruence. }
    destruct (summaryText analysis) eqn:Hs.
    + split; [discriminate|].
      intros [_ [r [a [Hr [Ha Hn]]]]]. injection Hr as <-.
      rewrite Hp in Ha. injection Ha as <-. congruence.
    + split; [|reflexivity]. intros _. split; [reflexivity|].
      exists response, analysis. auto.
  - unfold storedEntries, storedNotices. destruct (noApiKey render);
      [discriminate|].
    destruct (createCompletion w _) as [response|]; [|discriminate].
    destruct (parseAnalysis w _) as [analysis|]; [|discriminate].
    destruct (summaryText analysis); [discriminate|].
    intros _. split; [reflexivity|]. now exists analysis.
  - unfold storedEntries, storedNotices. destruct (noApiKey render);
      [intros m []|].
    destruct (createCompletion w _) as [response|]; [|intros m []].
    destruct (parseAnalysis w _) as [analysis|]; [|intros m []].
    destruct (summaryText analysis) as [summary|]; [|intros m []].
    intros m [<-|[]]. exists analysis, summary. split; reflexivity.
Qed.

(* ------------------------------------------------------------------ *)
(** *** Further facts about retrieval                                  *)
(* ------------------------------------------------------------------ *)

Lemma positiveEntries_nil_iff (documentIndex : list IndexEntry) (query : string) :
  positiveEntries documentIndex query = []
  <-> forall entry, In entry documentIndex ->
                    relatedPairs (queryWordsOf query) entry = [].
Proof.
  split.
  - intros Hnil entry Hin.
    destruct (relatedPairs (queryWordsOf query) entry) as [|p l] eqn:E;
      [reflexivity|].
    assert (Hp : In (withScore entry (relevance (queryWordsOf query) entry))
                    (positiveEntries documentIndex query)).
    { apply In_positiveEntries. exists entry. repeat split; auto.
      rewrite relevance_pairs, E. cbn [List.length]. lia. }
    rewrite Hnil in Hp. destruct Hp.
  - intros Hall.
    destruct (positiveEntries documentIndex query) as [|r l] eqn:E;
      [reflexivity|].
    assert (Hr : In r (positiveEntries documentIndex query))
      by (rewrite E; now left).
    apply In_positiveEntries in Hr. destruct Hr as [entry [Hin [_ Hpos]]].
    rewrite relevance_pairs, (Hall entry Hin) in Hpos. cbn in Hpos. lia.
Qed.

(** X6.  Retrieval returns nothing exactly when no keyword of any record
    is related to any word of the query, by containment one way or the
    other; in particular it returns nothing on an empty index. *)
Theorem X6_nothing_found_iff_nothing_related :
  forall (documentIndex : list IndexEntry) (query : string),
    (findRelevantIndexEntries documentIndex query = []
     <-> forall entry keyword word,
           In entry documentIndex -> In keyword (keywords entry) ->
           In word (queryWordsOf query) -> ~ Related keyword word)
    /\ findRelevantIndexEntries [] query = [].
Proof.
  intros documentIndex query. split; [|reflexivity].
  rewrite findRelevant_nil_iff, positiveEntries_nil_iff. split.
  - intros H entry keyword word He Hk Hw Hrel.
    assert (Hp : In (keyword, word) (relatedPairs (queryWordsOf query) entry))
      by (apply In_relatedPairs; cbn [fst snd]; auto).
    rewrite (H entry He) in Hp. destruct Hp.
  - intros H entry He.
    destruct (relatedPairs (queryWordsOf query) entry) as [|[k x] l] eqn:E;
      [reflexivity|].
    assert (Hp : In (k, x) (relatedPairs (queryWordsOf query) entry))
      by (rewrite E; now left).
    apply In_relatedPairs in Hp. cbn [fst snd] in Hp.
    destruct Hp as [Hk [Hw Hrel]]. exfalso. exact (H entry k x He Hk Hw Hrel).
Qed.

Lemma filter_length_le_all (A : Type) (p : A -> bool) (l : list A) :
  List.length (filter p l) <= List.length l.
Proof.
  induction l as [|x l IH]; [auto|]. cbn [filter].
  destruct (p x); cbn [List.length]; lia.
Qed.

(** X7.  The score of a record lies between zero and the number of its
    keywords times the number of query words; retrieval returns no more
    records than the index holds and no more than five, each with a score
    of at least one. *)
Theorem X7_score_and_result_bounds :
  forall (documentIndex : list IndexEntry) (query : string),
    (forall entry,
        (0 <= relevance (queryWordsOf query) entry
           <= Z.of_nat (List.length (keywords entry)
                        * List.length (queryWordsOf query)))%Z)
    /\ List.length (findRelevantIndexEntries documentIndex query)
       <= Nat.min 5 (List.length documentIndex)
    /\ (forall r, In r (findRelevantIndexEntries documentIndex query) ->
                  exists score, relevanceScore r = Some score /\ (1 <= score)%Z).
Proof.
  intros documentIndex query. split; [|split].
  - intros entry. rewrite relevance_pairs. unfold relatedPairs.
    pose proof (filter_length_le_all _
                  (fun p : string * string => wordMatches (fst p) (snd p))
                  (list_prod (keywords entry) (queryWordsOf query))) as H.
    rewrite length_prod in H. lia.
  - unfold findRelevantIndexEntries, JS.slice0.
    rewrite length_firstn, sort_length.
    pose proof (filter_length_le_all _ scorePositive
                  (map (fun entry =>
                          withScore entry (relevance (queryWordsOf query) entry))
                       documentIndex)) as H.
    rewrite length_map in H. lia.
  - intros r Hr. apply In_findRelevant, In_positiveEntries in Hr.
    destruct Hr as [entry [_ [-> Hpos]]].
    exists (relevance (queryWordsOf query) entry). split; [reflexivity | lia].
Qed.

Lemma splitTok_no_space (s cur : string) :
  NoWhiteSpace s -> JS.splitTok cur s = [(cur ++ s)%string].
Proof.
  unfold NoWhiteSpace. revert cur. induction s as [|c s IH]; intros cur H.
  - cbn. now rewrite string_app_empty_r.
  - cbn [allChars] in H. apply andb_true_iff in H. destruct H as [Hc Hs].
    apply negb_true_iff in Hc. cbn [JS.splitTok]. rewrite Hc.
    rewrite (IH _ Hs), string_app_assoc. reflexivity.
Qed.

Lemma NoWhiteSpace_lower (s : string) :
  NoWhiteSpace s -> NoWhiteSpace (JS.toLowerCase s).
Proof.
  unfold NoWhiteSpace, JS.toLowerCase.
  induction s as [|c s IH]; [auto|]. cbn [JS.mapChars allChars].
  rewrite isWhiteSpace_lowerChar. intros H. apply andb_true_iff in H.
  destruct H as [Hc Hs]. now rewrite Hc, IH.
Qed.

Lemma includes_self (s : string) : JS.includes s s = true.
Proof.
  apply includes_spec. exists EmptyString, EmptyString. cbn.
  now rewrite string_app_empty_r.
Qed.

Lemma relevance_at_least (queryWords : list string) (entry : IndexEntry)
    (keyword word : string) :
  In keyword (keywords entry) -> In word queryWords ->
  wordMatches keyword word = true ->
  (1 <= relevance queryWords entry)%Z.
Proof.
  intros Hk Hw Hm. rewrite relevance_pairs.
  assert (Hp : In (keyword, word) (relatedPairs queryWords entry)).
  { unfold relatedPairs. apply filter_In. split; [|exact Hm].
    now apply in_prod_iff. }
  destruct (relatedPairs queryWords entry); [destruct Hp|].
  cbn [List.length]. lia.
Qed.

Lemma all_positive_returned (documentIndex : list IndexEntry) (query : string)
    (r : IndexEntry) :
  List.length (positiveEntries documentIndex query) <= 5 ->
  In r (positiveEntries documentIndex query) ->
  In r (findRelevantIndexEntries documentIndex query).
Proof.
  intros Hlen Hr. unfold findRelevantIndexEntries, JS.slice0.
  fold (positiveEntries documentIndex query).
  rewrite firstn_all2 by (now rewrite sort_length).
  now apply sort_In.
Qed.

Lemma positiveEntries_length (documentIndex : list IndexEntry) (query : string) :
  List.length (positiveEntries documentIndex query)
  <= List.length documentIndex.
Proof.
  unfold positiveEntries.
  pose proof (filter_length_le_all _ scorePositive
                (map (fun entry =>
                        withScore entry (relevance (queryWordsOf query) entry))
                     documentIndex)) as H.
  now rewrite length_map in H.
Qed.

Lemma keyword_finds_record :
  forall (documentIndex : list IndexEntry) (entry : IndexEntry)
         (keyword query : string),
    In entry documentIndex ->
    In keyword (keywords entry) ->
    NoWhiteSpace keyword ->
    JS.toLowerCase query = JS.toLowerCase keyword ->
    (1 <= relevance (queryWordsOf query) entry)%Z
    /\ (List.length (positiveEntries documentIndex query) <= 5 ->
        In (withScore entry (relevance (queryWordsOf query) entry))
           (findRelevantIndexEntries documentIndex query))
    /\ (List.length documentIndex <= 5 ->
        In (withScore entry (relevance (queryWordsOf query) entry))
           (findRelevantIndexEntries documentIndex query)).
Proof.
  intros documentIndex entry keyword query He Hk Hns Hq.
  assert (Hw : queryWordsOf query = [JS.toLowerCase keyword]).
  { unfold queryWordsOf, JS.split_ws. rewrite Hq.
    now rewrite (splitTok_no_space _ _ (NoWhiteSpace_lower _ Hns)). }
  assert (Hpos : (1 <= relevance (queryWordsOf query) entry)%Z).
  { apply (relevance_at_least _ _ keyword (JS.toLowerCase keyword) Hk).
    - rewrite Hw. now left.
    - unfold wordMatches. now rewrite includes_self. }
  assert (Hin : In (withScore entry (relevance (queryWordsOf query) entry))
                   (positiveEntries documentIndex query)).
  { apply In_positiveEntries. exists entry. repeat split; auto. lia. }
  split; [exact Hpos|]. split.
  - intros Hlen. now apply all_positive_returned.
  - intros Hlen. apply all_positive_returned; [|exact Hin].
    pose proof (positiveEntries_length documentIndex query). lia.
Qed.

(** X8.  A record is found again through any of its keywords: when the
    query is a keyword of the record without white space in it, in any case
    of letters, the record scores at least one, and it is returned, with
    its score, when at most five records score, in particular when the
    index holds at most five. *)
Theorem X8_keyword_finds_its_record :
  forall (documentIndex : list IndexEntry) (entry : IndexEntry)
         (keyword query : string),
    In entry documentIndex ->
    In keyword (keywords entry) ->
    NoWhiteSpace keyword ->
    JS.toLowerCase query = JS.toLowerCase keyword ->
    (1 <= relevance (queryWordsOf query) entry)%Z
    /\ (List.length (positiveEntries documentIndex query) <= 5 ->
        In (withScore entry (relevance (queryWordsOf query) entry))
           (findRelevantIndexEntries documentIndex query))
    /\ (List.length documentIndex <= 5 ->
        In (withScore entry (relevance (queryWordsOf query) entry))
           (findRelevantIndexEntries documentIndex query)).
Proof. exact keyword_finds_record. Qed.

Lemma X8_keyword_witness :
  In (nth 1 twoEntries oneKeyword) twoEntries
  /\ NoWhiteSpace "cargo"
  /\ (1 <= relevance (queryWordsOf "CARGO") (nth 1 twoEntries oneKeyword))%Z.
Proof.
  assert (He : In (nth 1 twoEntries oneKeyword) twoEntries)
    by (right; left; reflexivity).
  assert (Hk : In "cargo" (keywords (nth 1 twoEntries oneKeyword)))
    by (right; right; left; reflexivity).
  assert (Hn : NoWhiteSpace "cargo") by reflexivity.
  split; [exact He|]. split; [exact Hn|].
  exact (proj1 (X8_keyword_finds_its_record twoEntries
                  (nth 1 twoEntries oneKeyword) "cargo" "CARGO"
                  He Hk Hn eq_refl)).
Defined.

Lemma keyword_is_table_name (text keyword : string) :
  In keyword (extractBasicKeywords text) ->
  In keyword (tableOrder (longWords text)).
Proof.
  unfold extractBasicKeywords, JS.slice0. intros H.
  apply in_map_iff in H. destruct H as [[k v] [<- H]]. cbn [fst].
  apply In_firstn in H. apply sort_In in H.
  rewrite entries_table in H. apply in_map_iff in H.
  destruct H as [k' [Heq Hk']]. now injection Heq as <- _.
Qed.

Lemma keyword_is_long_word (text keyword : string) :
  In keyword (extractBasicKeywords text) ->
  In keyword (longWords text) /\ keyword <> "__proto__".
Proof.
  intros H. now apply In_tableOrder, keyword_is_table_name.
Qed.

Lemma tokenChar_plain (c : ascii) :
  tokenChar c = true -> JS.isWhiteSpace c = false /\ JS.lowerChar c = c.
Proof.
  destruct c as [[] [] [] [] [] [] [] []]; cbn; intros H;
    try discriminate H; split; reflexivity.
Qed.

Lemma token_plain (s : string) :
  allChars tokenChar s = true -> NoWhiteSpace s /\ JS.toLowerCase s = s.
Proof.
  unfold NoWhiteSpace, JS.toLowerCase.
  induction s as [|c s IH]; [split; reflexivity|].
  cbn [allChars JS.mapChars]. intros H. apply andb_true_iff in H.
  destruct H as [Hc Hs]. destruct (tokenChar_plain c Hc) as [Hw Hl].
  destruct (IH Hs) as [IH1 IH2]. rewrite Hw, Hl, IH1, IH2. split; reflexivity.
Qed.

(** X9.  Content indexed through the fallback path is found again by
    any of its own keywords: when the answer of the model cannot be
    parsed and the index held fewer than five entries, a query that is
    one of the extracted keywords returns a record with that content and
    a score of at least one. *)
Theorem X9_fallback_content_is_found_by_its_keywords :
  forall (w : World) (render st : ChatState) (text keyword : string)
         (response : option string),
    HasKey render ->
    createCompletion w (analysisPrompt text) = Some response ->
    parseAnalysis w (orEmpty response) = None ->
    In keyword (extractBasicKeywords text) ->
    List.length (documentIndex st) < 5 ->
    let st' := snd (parseAndIndexContent w render text st) in
    exists r score,
      In r (findRelevantIndexEntries (documentIndex st') keyword)
      /\ content r = text
      /\ keywords r = extractBasicKeywords text
      /\ relevanceScore r = Some score
      /\ (1 <= score)%Z.
Proof.
  intros w render st text keyword response Hk Hc Hp Hin Hlen st'. subst st'.
  rewrite parseAndIndexContent_index. unfold storedEntries.
  unfold HasKey in Hk. rewrite Hk, Hc, Hp.
  destruct (keyword_is_long_word _ _ Hin) as [Hw _].
  destruct (longWords_shape _ _ Hw) as [_ Hshape].
  destruct (token_plain _ Hshape) as [Hns _].
  assert (He : In (fallbackEntry w text)
                  (documentIndex st ++ [fallbackEntry w text]))
    by (apply in_or_app; right; now left).
  destruct (keyword_finds_record
              (documentIndex st ++ [fallbackEntry w text])
              (fallbackEntry w text) keyword keyword He Hin Hns eq_refl)
    as [Hpos [_ Hret]].
  assert (Hl : List.length (documentIndex st ++ [fallbackEntry w text]) <= 5)
    by (rewrite length_app; cbn [List.length]; lia).
  specialize (Hret Hl).
  exists (withScore (fallbackEntry w text)
            (relevance (queryWordsOf keyword) (fallbackEntry w text))).
  exists (relevance (queryWordsOf keyword) (fallbackEntry w text)).
  repeat split; auto.
Qed.

Lemma X9_fallback_witness :
  HasKey readyState
  /\ In "brown" (extractBasicKeywords foxSentence)
  /\ exists r score,
       In r (findRelevantIndexEntries
               (documentIndex (snd (parseAndIndexContent garbledWorld readyState
                                      foxSentence readyState))) "brown")
       /\ content r = foxSentence
       /\ keywords r = extractBasicKeywords foxSentence
       /\ relevanceScore r = Some score
       /\ (1 <= score)%Z.
Proof.
  assert (Hk : HasKey readyState) by reflexivity.
  assert (Hin : In "brown" (extractBasicKeywords foxSentence))
    by (vm_compute; right; left; reflexivity).
  split; [exact Hk|]. split; [exact Hin|].
  apply (X9_fallback_content_is_found_by_its_keywords
           garbledWorld readyState readyState foxSentence "brown"
           (Some "Sure! Here is the analysis.") Hk eq_refl eq_refl Hin).
  cbn. lia.
Defined.

Lemma count_matching (A : Type) (p : A -> bool) (l : list A) (x : A) :
  In x l -> p x = true -> 1 <= List.length (filter p l).
Proof.
  induction l as [|y l IH]; [intros []|]. intros [->|H] Hp; cbn [filter].
  - rewrite Hp. cbn [List.length]. lia.
  - destruct (p y); cbn [List.length]; [lia | now apply IH].
Qed.

Lemma relevance_with_empty_word (queryWords : list string) (entry : IndexEntry) :
  In EmptyString queryWords ->
  (Z.of_nat (List.length (keywords entry)) <= relevance queryWords entry)%Z.
Proof.
  intros Hw. rewrite relevance_pairs. unfold relatedPairs.
  apply Nat2Z.inj_le.
  induction (keywords entry) as [|k ks IH]; [cbn; lia|].
  cbn [list_prod]. rewrite filter_app, length_app. cbn [List.length].
  match goal with
  | |- _ <= List.length ?a + _ => assert (H1 : 1 <= List.length a)
  end.
  { apply (count_matching _ _ _ (k, EmptyString)).
    - apply in_map_iff. now exists EmptyString.
    - cbn [fst snd]. apply wordMatches_empty. }
  lia.
Qed.

Lemma trimEnd_changed_leaves_empty_piece (s : string) :
  JS.trimEnd s <> s ->
  (forall cur, In EmptyString (JS.splitTok cur (JS.toLowerCase s)))
  /\ In EmptyString (JS.splitSep (JS.toLowerCase s)).
Proof.
  unfold JS.toLowerCase.
  induction s as [|c s IH]; [intros H; now contradiction H|].
  cbn [JS.trimEnd JS.mapChars JS.splitTok JS.splitSep].
  rewrite isWhiteSpace_lowerChar.
  destruct (JS.trimEnd s) as [|d t] eqn:E.
  - assert (Hb : allChars JS.isWhiteSpace (JS.mapChars JS.lowerChar s) = true).
    { fold (JS.toLowerCase s). rewrite allChars_toLowerCase.
      now apply trimEnd_empty. }
    destruct (JS.isWhiteSpace c) eqn:Ec.
    + intros _. rewrite (splitSep_blank _ Hb).
      split; [intros cur; right|]; now left.
    + intros Hne. destruct s as [|e s]; [now contradiction Hne|].
      cbn [JS.mapChars allChars] in Hb. apply andb_true_iff in Hb.
      destruct Hb as [He Hs]. cbn [JS.mapChars JS.splitTok]. rewrite He.
      rewrite (splitSep_blank _ Hs).
      split; [intros cur; right|right]; now left.
  - intros Hne. assert (Hs : String d t <> s) by congruence.
    destruct (IH Hs) as [IH1 IH2].
    destruct (JS.isWhiteSpace c); split; try intros cur; auto.
    now right.
Qed.

Lemma untrimmed_query_has_empty_word (query : string) :
  JS.trim query <> query -> In EmptyString (queryWordsOf query).
Proof.
  intros H. unfold queryWordsOf, JS.split_ws.
  destruct query as [|c q]; [now contradiction H|].
  destruct (JS.isWhiteSpace c) eqn:Ec.
  - unfold JS.toLowerCase. cbn [JS.mapChars JS.splitTok].
    rewrite isWhiteSpace_lowerChar, Ec. now left.
  - unfold JS.trim in H. cbn [JS.trimStart] in H. rewrite Ec in H.
    now apply trimEnd_changed_leaves_empty_piece.
Qed.

(** X10.  White space at the start or at the end of a query makes every
    record with a keyword relevant: such a query has an empty word, which
    occurs in every keyword, so each record scores at least the number of
    its keywords, and with at most five records in the index every record
    that has a keyword is returned. *)
Theorem X10_untrimmed_query_matches_every_keyword :
  forall (documentIndex : list IndexEntry) (query : string),
    JS.trim query <> query ->
    In EmptyString (queryWordsOf query)
    /\ (forall entry,
           (Z.of_nat (List.length (keywords entry))
            <= relevance (queryWordsOf query) entry)%Z)
    /\ (List.length documentIndex <= 5 ->
        forall entry,
          In entry documentIndex -> keywords entry <> [] ->
          In (withScore entry (relevance (queryWordsOf query) entry))
             (findRelevantIndexEntries documentIndex query)).
Proof.
  intros documentIndex query H.
  pose proof (untrimmed_query_has_empty_word query H) as Hw.
  split; [exact Hw|]. split.
  - intros entry. now apply relevance_with_empty_word.
  - intros Hlen entry He Hk. apply all_positive_returned.
    + pose proof (positiveEntries_length documentIndex query). lia.
    + apply In_positiveEntries. exists entry. repeat split; auto.
      pose proof (relevance_with_empty_word (queryWordsOf query) entry Hw).
      destruct (keywords entry); [congruence|]. cbn [List.length] in *. lia.
Qed.

Lemma X10_untrimmed_query_witness :
  JS.trim "zebra " <> "zebra "
  /\ findRelevantIndexEntries twoEntries "zebra " <> [].
Proof.
  assert (H : JS.trim "zebra " <> "zebra ") by discriminate.
  split; [exact H|].
  pose proof (proj2 (proj2 (X10_untrimmed_query_matches_every_keyword
                              twoEntries "zebra " H))) as Hall.
  assert (He : In (nth 0 twoEntries oneKeyword) twoEntries)
    by (left; reflexivity).
  specialize (Hall (le_S _ _ (le_S _ _ (le_S _ _ (le_n 2))))
                   (nth 0 twoEntries oneKeyword) He).
  intros Hnil. rewrite Hnil in Hall. apply Hall. discriminate.
Defined.





(* ------------------------------------------------------------------ *)
(** *** Further facts about the fallback extractor                     *)
(* ------------------------------------------------------------------ *)

Lemma extract_length (text : string) :
  List.length (extractBasicKeywords text)
  = Nat.min 10 (List.length (firstSeen (filter notProto (longWords text)))).
Proof.
  unfold extractBasicKeywords, JS.slice0.
  rewrite length_map, length_firstn, sort_length, entries_table, length_map.
  now rewrite (Permutation_length (tableOrder_perm (longWords text))).
Qed.

(** X12.  Whatever the text, the fallback extractor returns at most ten
    keywords, as many as there are distinct words longer than three
    characters when these are fewer (the word [__proto__] not counted);
    every keyword is such a word of the text, lower-cased, made of
    [a-z0-9_] and free of white space; and no keyword is returned exactly
    when the text has no such word, as for the empty text. *)
Theorem X12_fallback_keywords_are_long_words :
  forall text : string,
    List.length (extractBasicKeywords text)
    = Nat.min 10 (List.length (firstSeen (filter notProto (longWords text))))
    /\ (forall keyword,
           In keyword (extractBasicKeywords text) ->
           In keyword (longWords text)
           /\ keyword <> "__proto__"
           /\ 3 < String.length keyword
           /\ allChars tokenChar keyword = true
           /\ JS.toLowerCase keyword = keyword
           /\ NoWhiteSpace keyword)
    /\ (extractBasicKeywords text = []
        <-> forall word, In word (longWords text) -> word = "__proto__")
    /\ extractBasicKeywords EmptyString = [].
Proof.
  intros text. split; [apply extract_length|]. split; [|split; [|reflexivity]].
  - intros keyword H. destruct (keyword_is_long_word _ _ H) as [Hw Hp].
    destruct (longWords_shape _ _ Hw) as [Hlen Hshape].
    destruct (token_plain _ Hshape) as [Hns Hlow]. repeat split; auto.
  - pose proof (extract_length text) as Hl. split.
    + intros Hnil word Hw.
      destruct (String.eqb_spec word "__proto__") as [|Hne]; [assumption|].
      exfalso. rewrite Hnil in Hl. cbn [List.length] in Hl.
      assert (Hin : In word (firstSeen (filter notProto (longWords text)))).
      { apply In_firstSeen, filter_In. split; [exact Hw|].
        unfold notProto. apply negb_true_iff. now apply String.eqb_neq. }
      destruct (firstSeen (filter notProto (longWords text))); [destruct Hin|].
      cbn [List.length] in Hl. lia.
    + intros Hall.
      destruct (firstSeen (filter notProto (longWords text))) as [|x l] eqn:E.
      * cbn in Hl. now apply length_zero_iff_nil.
      * assert (Hx : In x (firstSeen (filter notProto (longWords text))))
          by (rewrite E; now left).
        apply In_firstSeen, filter_In in Hx. destruct Hx as [Hx Hp].
        rewrite (Hall x Hx) in Hp. discriminate Hp.
Qed.

Lemma sorted_prefix_dominates (A : Type) (R : A -> A -> Prop) (l : list A)
    (n : nat) (a b : A) :
  StronglySorted R l -> In a (firstn n l) -> In b (skipn n l) -> R a b.
Proof.
  intros Hs. revert n. induction Hs as [|x l Hs IH Hall]; intros n Ha Hb.
  - destruct n; destruct Ha.
  - destruct n as [|n]; [destruct Ha|]. cbn [firstn skipn] in Ha, Hb.
    destruct Ha as [<-|Ha].
    + rewrite Forall_forall in Hall. apply Hall.
      rewrite <- (firstn_skipn n l). apply in_or_app. now right.
    + now apply (IH n).
Qed.

(** X13.  When [constructor] is not among the words, the keywords of
    the fallback extractor are the most frequent words: a word of the text
    that is left out occurs no more often than any keyword; every keyword
    occurs at least once; and when the text has at most ten distinct words
    every one of them is a keyword. *)
Theorem X13_fallback_keywords_are_most_frequent :
  forall text : string,
    let words := longWords text in
    ~ In "constructor" words ->
    (forall keyword word,
        In keyword (extractBasicKeywords text) ->
        In word words -> word <> "__proto__" ->
        ~ In word (extractBasicKeywords text) ->
        (frequency words word <= frequency words keyword)%Z)
    /\ (forall keyword,
           In keyword (extractBasicKeywords text) ->
           (1 <= frequency words keyword)%Z)
    /\ (List.length (firstSeen (filter notProto words)) <= 10 ->
        forall word,
          In word words -> word <> "__proto__" ->
          In word (extractBasicKeywords text)).
Proof.
  intros text words Hc.
  pose proof (extract_by_count text Hc) as He. fold words in He.
  set (ranked := JS.sort (byCount words) (tableOrder words)) in *.
  assert (Hranked : forall word, In word words -> word <> "__proto__" ->
                                 In word ranked).
  { intros word Hw Hp. apply sort_In. apply In_tableOrder. now split. }
  split; [|split].
  - intros keyword word Hk Hw Hp Hout. rewrite He in Hk, Hout.
    assert (Hs : In word (skipn 10 ranked)).
    { specialize (Hranked word Hw Hp).
      rewrite <- (firstn_skipn 10 ranked) in Hranked.
      apply in_app_or in Hranked. tauto. }
    apply (sorted_prefix_dominates _
             (fun a b => (frequency words b <= frequency words a)%Z)
             ranked 10 keyword word); auto.
    apply (sort_sorted _ (frequency words) (byCount words)). reflexivity.
  - intros keyword Hk. destruct (keyword_is_long_word _ _ Hk) as [Hw _].
    unfold frequency. fold words in Hw.
    apply (count_occ_In string_dec) in Hw. lia.
  - intros Hlen word Hw Hp. rewrite He. rewrite firstn_all2.
    + now apply Hranked.
    + unfold ranked. rewrite sort_length.
      now rewrite (Permutation_length (tableOrder_perm words)).
Qed.

Lemma X13_most_frequent_witness :
  ~ In "constructor" (longWords "delta alpha beta alpha gamma")
  /\ (1 <= frequency (longWords "delta alpha beta alpha gamma") "alpha")%Z.
Proof.
  assert (Hc : ~ In "constructor" (longWords "delta alpha beta alpha gamma")).
  { vm_compute. intros H. repeat (destruct H as [H|H]; [discriminate|]).
    exact H. }
  split; [exact Hc|].
  apply (proj1 (proj2 (X13_fallback_keywords_are_most_frequent
                         "delta alpha beta alpha gamma" Hc))).
  vm_compute. left. reflexivity.
Defined.

(* ------------------------------------------------------------------ *)
(** *** The content handed to the indexing operation                   *)
(* ------------------------------------------------------------------ *)

Lemma trimEnd_cons (c : ascii) (s : string) :
  JS.trimEnd (String c s)
  = match JS.trimEnd s with
    | EmptyString => if JS.isWhiteSpace c then EmptyString
                     else String c EmptyString
    | String d t => String c (String d t)
    end.
Proof. reflexivity. Qed.

Lemma trimEnd_idempotent (s : string) :
  JS.trimEnd (JS.trimEnd s) = JS.trimEnd s.
Proof.
  induction s as [|c s IH]; [reflexivity|]. rewrite trimEnd_cons.
  destruct (JS.trimEnd s) as [|d t] eqn:E.
  - destruct (JS.isWhiteSpace c) eqn:Ec; [reflexivity|].
    rewrite trimEnd_cons. cbn [JS.trimEnd]. now rewrite Ec.
  - rewrite trimEnd_cons. now rewrite IH.
Qed.

Lemma trimEnd_keeps_head (c : ascii) (s : string) :
  JS.isWhiteSpace c = false ->
  exists t, JS.trimEnd (String c s) = String c t.
Proof.
  intros Hc. cbn [JS.trimEnd]. destruct (JS.trimEnd s) as [|d t];
    [rewrite Hc|]; eauto.
Qed.

Lemma trim_idempotent (s : string) : JS.trim (JS.trim s) = JS.trim s.
Proof.
  unfold JS.trim. pose proof (trimStart_head s) as Hh.
  destruct (JS.trimStart s) as [|c t] eqn:E; [reflexivity|].
  destruct (trimEnd_keeps_head c t Hh) as [u Hu].
  assert (Hs : JS.trimStart (JS.trimEnd (String c t)) = JS.trimEnd (String c t))
    by (rewrite Hu; cbn [JS.trimStart]; now rewrite Hh).
  rewrite Hs. apply trimEnd_idempotent.
Qed.

Lemma trimStart_suffix (s : string) :
  exists pre, s = (pre ++ JS.trimStart s)%string
              /\ allChars JS.isWhiteSpace pre = true.
Proof.
  induction s as [|c s IH]; [exists EmptyString; split; reflexivity|].
  cbn [JS.trimStart]. destruct (JS.isWhiteSpace c) eqn:Ec.
  - destruct IH as [pre [H1 H2]]. exists (String c pre). split.
    + cbn. now rewrite <- H1.
    + cbn [allChars]. now rewrite Ec, H2.
  - exists EmptyString. split; reflexivity.
Qed.

Lemma trimEnd_prefix (s : string) :
  exists post, s = (JS.trimEnd s ++ post)%string
               /\ allChars JS.isWhiteSpace post = true.
Proof.
  induction s as [|c s IH]; [exists EmptyString; split; reflexivity|].
  destruct IH as [post [H1 H2]]. rewrite trimEnd_cons.
  destruct (JS.trimEnd s) as [|d t] eqn:E.
  - cbn [append] in H1. destruct (JS.isWhiteSpace c) eqn:Ec.
    + exists (String c post). split; [cbn [append]; now f_equal|].
      cbn [allChars]. now rewrite Ec, H2.
    + exists post. split; [cbn [append]; now f_equal | exact H2].
  - exists post. split; [|exact H2].
    change (String c (String d t) ++ post)%string
      with (String c (String d t ++ post)). now f_equal.
Qed.

Lemma trim_inside (s : string) :
  exists pre post,
    s = (pre ++ JS.trim s ++ post)%string
    /\ allChars JS.isWhiteSpace pre = true
    /\ allChars JS.isWhiteSpace post = true.
Proof.
  unfold JS.trim. destruct (trimStart_suffix s) as [pre [H1 H2]].
  destruct (trimEnd_prefix (JS.trimStart s)) as [post [H3 H4]].
  exists pre, post. split; [|split; assumption].
  now rewrite <- H3.
Qed.

Lemma stripTrigger_suffix (message : string) :
  exists p, message = (p ++ stripTrigger message)%string.
Proof.
  unfold stripTrigger.
  destruct (JS.matchPrefixCI "index this:" message) as [rest|] eqn:E1.
  - apply (matchPrefixCI_spec "index this:" eq_refl) in E1.
    destruct E1 as [p [H _]]. now exists p.
  - destruct (JS.matchPrefixCI "analyze this:" message) as [rest|] eqn:E2.
    + apply (matchPrefixCI_spec "analyze this:" eq_refl) in E2.
      destruct E2 as [p [H _]]. now exists p.
    + now exists EmptyString.
Qed.

(** X14.  The content handed to the indexing operation is never empty,
    has no white space at its start or at its end, is a part of the
    message as it was typed, up to its end but for white space, and comes
    from a message in which one of the two phrases occurs. *)
Theorem X14_indexed_content_is_trimmed_part_of_message :
  forall message text : string,
    contentToIndex message = Some text ->
    text <> EmptyString
    /\ JS.trim text = text
    /\ (exists before after,
           message = (before ++ text ++ after)%string /\ Blank after)
    /\ (Substring "index this:" (JS.toLowerCase message)
        \/ Substring "analyze this:" (JS.toLowerCase message)).
Proof.
  intros message text H. unfold contentToIndex in H.
  destruct (mentionsTrigger message) eqn:Em; [|discriminate].
  destruct (String.eqb_spec (JS.trim (stripTrigger message)) EmptyString)
    as [|Hne]; [discriminate|].
  injection H as <-.
  split; [exact Hne|]. split; [apply trim_idempotent|]. split.
  - destruct (stripTrigger_suffix message) as [p Hp].
    destruct (trim_inside (stripTrigger message)) as [pre [post [H1 [_ H2]]]].
    exists (p ++ pre)%string, post. split; [|exact H2].
    rewrite string_app_assoc, <- H1. exact Hp.
  - unfold mentionsTrigger in Em. apply orb_true_iff in Em.
    destruct Em as [Em|Em]; apply includes_spec in Em; auto.
Qed.

Lemma X14_indexed_content_witness :
  contentToIndex "  Analyze THIS:   graph theory  " = Some "Analyze THIS:   graph theory"
  /\ JS.trim "Analyze THIS:   graph theory" = "Analyze THIS:   graph theory".
Proof.
  assert (H : contentToIndex "  Analyze THIS:   graph theory  "
              = Some "Analyze THIS:   graph theory") by reflexivity.
  split; [exact H|].
  exact (proj1 (proj2 (X14_indexed_content_is_trimmed_part_of_message
                         "  Analyze THIS:   graph theory  "
                         "Analyze THIS:   graph theory" H))).
Defined.

(* ------------------------------------------------------------------ *)
(** *** The key: saving and loading                                    *)
(* ------------------------------------------------------------------ *)

Lemma dropPrefix_app (p s : string) : dropPrefix p (p ++ s) = Some s.
Proof.
  induction p as [|a p IH]; [reflexivity|]. cbn [append dropPrefix].
  now rewrite Ascii.eqb_refl.
Qed.

Lemma findAfter_app (p s : string) : findAfter p (p ++ s) = Some s.
Proof.
  destruct p as [|a p]; [destruct s; reflexivity|].
  cbn [append findAfter].
  change (String a (p ++ s)) with (String a p ++ s)%string.
  now rewrite dropPrefix_app.
Qed.

Lemma lineTerminator_is_space (c : ascii) :
  isLineTerminator c = true -> JS.isWhiteSpace c = true.
Proof.
  destruct c as [[] [] [] [] [] [] [] []]; cbn; intros H;
    try discriminate H; reflexivity.
Qed.

Lemma restOfLine_one_line (s : string) : OneLine s -> restOfLine s = s.
Proof.
  unfold OneLine. induction s as [|c s IH]; [reflexivity|].
  cbn [allChars restOfLine]. intros H. apply andb_true_iff in H.
  destruct H as [Hc Hs]. apply negb_true_iff in Hc. now rewrite Hc, IH.
Qed.

Lemma trim_head (s : string) :
  JS.trim s <> EmptyString ->
  exists c t, JS.trim s = String c t /\ JS.isWhiteSpace c = false.
Proof.
  intros Hne. unfold JS.trim in *. pose proof (trimStart_head s) as Hh.
  destruct (JS.trimStart s) as [|c t]; [now contradiction Hne|].
  destruct (trimEnd_keeps_head c t Hh) as [u Hu]. exists c, u. now split.
Qed.

Lemma restOfLine_of_trimmed (s : string) :
  JS.trim s <> EmptyString -> restOfLine (JS.trim s) <> EmptyString.
Proof.
  intros Hne. destruct (trim_head s Hne) as [c [t [-> Hc]]].
  cbn [restOfLine]. destruct (isLineTerminator c) eqn:E; [|discriminate].
  apply lineTerminator_is_space in E. congruence.
Qed.

Lemma lookupText_first (name text : string) (l : list (string * string)) :
  lookupText name ((name, text) :: l) = Some text.
Proof. cbn [lookupText]. now rewrite String.eqb_refl. Qed.

(** X15.  A key saved through the dialog is the key loaded at the next
    start.  When the save raises no alert, the component holds the
    trimmed key and the dialog is closed; loading from the storage the
    save left gives, in the browser, that same trimmed key, and on the
    desktop the part of it up to its first line break, trimmed, which is
    the whole key when the key has no line break. *)
Theorem X15_saved_key_is_loaded_again :
  forall (p : Platform) (key : string) (isLoading : bool)
         (s : Storage) (app app0 : AppState),
    JS.trim key <> EmptyString ->
    alerted (handleSave p key isLoading s app) = false ->
    let saved := handleSave p key isLoading s app in
    apiKey (chat (appAfter saved)) = Some (JS.trim key)
    /\ showModal (appAfter saved) = false
    /\ isLoadingAfter saved = false
    /\ (isTauri p = false ->
        loadApiKey p (storageAfter saved) app0 = setApiKey (JS.trim key) app0)
    /\ (isTauri p = true ->
        loadApiKey p (storageAfter saved) app0
        = setApiKey (JS.trim (restOfLine (JS.trim key))) app0)
    /\ (OneLine (JS.trim key) ->
        loadApiKey p (storageAfter saved) app0 = setApiKey (JS.trim key) app0).
Proof.
  intros p key isLoading s app app0 Hne Hok saved. subst saved.
  apply String.eqb_neq in Hne. unfold handleSave in *. rewrite Hne in *.
  apply String.eqb_neq in Hne.
  assert (Hrest : String.eqb (restOfLine (JS.trim key)) EmptyString = false)
    by (apply String.eqb_neq; now apply restOfLine_of_trimmed).
  unfold loadApiKey.
  destruct (isTauri p) eqn:Et.
  - destruct (appDataDir p) as [dir|] eqn:Ed; [|discriminate Hok].
    destruct (writeFails p); [discriminate Hok|].
    cbn [storageAfter appAfter isLoadingAfter files localStorage
         handleApiKeySave setShowModal setApiKey chat showModal apiKey].
    rewrite lookupText_first. unfold envKey. rewrite findAfter_app, Hrest.
    repeat split; try reflexivity; try discriminate.
    intros Hone. rewrite (restOfLine_one_line _ Hone).
    now rewrite trim_idempotent.
  - destruct (setItemFails p); [discriminate Hok|].
    cbn [storageAfter appAfter isLoadingAfter files localStorage
         handleApiKeySave setShowModal setApiKey chat showModal apiKey].
    rewrite lookupText_first.
    apply String.eqb_neq in Hne. rewrite Hne.
    repeat split; try reflexivity; try discriminate.
Qed.

Lemma X15_saved_key_witness :
  JS.trim "  gsk_abc123 " <> EmptyString
  /\ alerted (handleSave desktop "  gsk_abc123 " false emptyStorage freshApp)
     = false
  /\ apiKey (chat (loadApiKey desktop
                     (storageAfter (handleSave desktop "  gsk_abc123 " false
                                      emptyStorage freshApp))
                     freshApp))
     = Some "gsk_abc123".
Proof.
  assert (Hne : JS.trim "  gsk_abc123 " <> EmptyString) by discriminate.
  assert (Hok : alerted (handleSave desktop "  gsk_abc123 " false
                           emptyStorage freshApp) = false) by reflexivity.
  split; [exact Hne|]. split; [exact Hok|].
  rewrite (proj2 (proj2 (proj2 (proj2 (proj2
             (X15_saved_key_is_loaded_again desktop "  gsk_abc123 " false
                emptyStorage freshApp freshApp Hne Hok))))) eq_refl).
  reflexivity.
Defined.

(** X16.  Loading the key changes nothing but the key or the flag of the
    dialog: either it opens the dialog and leaves the key alone, or it
    sets a key and leaves the dialog alone.  In the browser a key it sets
    is not empty, so the component ends with a usable key or an open
    dialog; on the desktop the key it sets is trimmed, and a file whose
    value is white space only sets the empty key with the dialog closed. *)
Theorem X16_loading_sets_key_or_opens_dialog :
  forall (p : Platform) (s : Storage) (app : AppState),
    let app' := loadApiKey p s app in
    ((app' = setShowModal true app)
     \/ (exists key, app' = setApiKey key app
                     /\ (isTauri p = false -> key <> EmptyString)
                     /\ (isTauri p = true -> JS.trim key = key)))
    /\ (isTauri p = false -> showModal app' = true \/ HasKey (chat app'))
    /\ (let stuck := loadApiKey desktop
                       {| files := [(envPath "/home/user/.local/share/agent",
                                     "VITE_GROQ_API_KEY=   ")];
                          localStorage := [] |} freshApp in
        showModal stuck = false /\ noApiKey (chat stuck) = true).
Proof.
  intros p s app app'. subst app'. unfold loadApiKey.
  split; [|split; [|split; reflexivity]].
  - destruct (isTauri p).
    + destruct (appDataDir p) as [dir|]; [|now left].
      destruct (lookupText (envPath dir) (files s)) as [envContent|];
        [|now left].
      destruct (envKey envContent) as [captured|]; [|now left].
      destruct (String.eqb captured EmptyString); [now left|].
      right. exists (JS.trim captured). split; [reflexivity|].
      split; [discriminate|]. intros _. apply trim_idempotent.
    + destruct (lookupText "GROQ_API_KEY" (localStorage s)) as [storedKey|];
        [|now left].
      destruct (String.eqb_spec storedKey EmptyString) as [|Hne]; [now left|].
      right. exists storedKey. split; [reflexivity|].
      split; [intros _; exact Hne | discriminate].
  - intros Ht. rewrite Ht.
    destruct (lookupText "GROQ_API_KEY" (localStorage s)) as [storedKey|];
      [|now left].
    destruct (String.eqb_spec storedKey EmptyString) as [|Hne]; [now left|].
    right. unfold HasKey, noApiKey. cbn. now apply String.eqb_neq.
Qed.

(** X17.  The dialog never stores a blank or untrimmed key.  A key that
    is blank makes the save do nothing at all; a save that raises an alert
    leaves the storage and the component as they were and ends with the
    loading flag off; and whatever a save adds to the storage is the
    trimmed key, not empty, under the name the loader reads. *)
Theorem X17_save_stores_only_trimmed_key :
  forall (p : Platform) (key : string) (isLoading : bool)
         (s : Storage) (app : AppState),
    let saved := handleSave p key isLoading s app in
    (Blank key ->
     saved = {| storageAfter := s; appAfter := app;
                isLoadingAfter := isLoading; alerted := false |})
    /\ (alerted saved = true ->
        storageAfter saved = s /\ appAfter saved = app
        /\ isLoadingAfter saved = false)
    /\ (forall name text,
           In (name, text) (localStorage (storageAfter saved)) ->
           In (name, text) (localStorage s)
           \/ (name = "GROQ_API_KEY" /\ text = JS.trim key
               /\ text <> EmptyString))
    /\ (forall name text,
           In (name, text) (files (storageAfter saved)) ->
           In (name, text) (files s)
           \/ (exists dir, appDataDir p = Some dir /\ name = envPath dir
                           /\ envKey text = Some (restOfLine (JS.trim key))
                           /\ JS.trim key <> EmptyString)).
Proof.
  intros p key isLoading s app saved. subst saved. unfold handleSave.
  destruct (String.eqb_spec (JS.trim key) EmptyString) as [He|Hne].
  - split; [reflexivity|]. split; [discriminate|]. split; auto.
  - split; [intros Hb; apply trim_empty_iff in Hb; contradiction|].
    destruct (isTauri p).
    + destruct (appDataDir p) as [dir|].
      * destruct (writeFails p);
          cbn [storageAfter appAfter isLoadingAfter alerted files
               localStorage In].
        -- repeat split; auto.
        -- split; [discriminate|]. split; [auto|].
           intros name text [H|H]; [|now left]. injection H as <- <-.
           right. exists dir. split; [reflexivity|]. split; [reflexivity|].
           split; [|exact Hne]. unfold envKey.
           pose proof (findAfter_app "VITE_GROQ_API_KEY=" (JS.trim key)) as Hf.
           cbn [append] in Hf. now rewrite Hf.
      * cbn [storageAfter appAfter isLoadingAfter alerted files
             localStorage In]. repeat split; auto.
    + destruct (setItemFails p);
        cbn [storageAfter appAfter isLoadingAfter alerted files
             localStorage In].
      * repeat split; auto.
      * split; [discriminate|]. split; [|auto].
        intros name text [H|H]; [|now left]. injection H as <- <-.
        right. repeat split; auto.
Qed.

Lemma X17_blank_key_witness :
  Blank "   "
  /\ handleSave browser "   " false emptyStorage freshApp
     = {| storageAfter := emptyStorage; appAfter := freshApp;
          isLoadingAfter := false; alerted := false |}.
Proof.
  assert (Hb : Blank "   ") by reflexivity.
  split; [exact Hb|].
  exact (proj1 (X17_save_stores_only_trimmed_key browser "   " false
                  emptyStorage freshApp) Hb).
Defined.

(* ------------------------------------------------------------------ *)
(** *** From indexing to the context of a later question               *)
(* ------------------------------------------------------------------ *)

Lemma Substring_inside (t s before after : string) :
  Substring t s -> Substring t (before ++ s ++ after).
Proof.
  intros [pre [post ->]]. exists (before ++ pre)%string, (post ++ after)%string.
  now rewrite !string_app_assoc.
Qed.

Lemma Substring_self (s : string) : Substring s s.
Proof.
  exists EmptyString, EmptyString. cbn. now rewrite string_app_empty_r.
Qed.

Lemma join_contains (sep x : string) (l : list string) :
  In x l -> Substring x (JS.join sep l).
Proof.
  induction l as [|y l IH]; [intros []|]. intros H.
  destruct l as [|z l].
  - destruct H as [->|[]]. apply Substring_self.
  - change (JS.join sep (y :: z :: l))
      with (y ++ sep ++ JS.join sep (z :: l))%string.
    destruct H as [->|H].
    + exists EmptyString, (sep ++ JS.join sep (z :: l))%string. reflexivity.
    + specialize (IH H).
      pose proof (Substring_inside _ _ (y ++ sep) EmptyString IH) as Hs.
      now rewrite string_app_empty_r, string_app_assoc in Hs.
Qed.

Lemma context_lists_relevant (documentIndex : list IndexEntry)
    (query : string) (r : IndexEntry) :
  In r (findRelevantIndexEntries documentIndex query) ->
  Substring (entryLine r) (buildEnhancedContext documentIndex query).
Proof.
  intros Hr. unfold buildEnhancedContext.
  destruct (findRelevantIndexEntries documentIndex query) as [|x l] eqn:E;
    [destruct Hr|].
  cbn [List.length Nat.ltb Nat.leb].
  assert (Hj : Substring (entryLine r) (JS.join nl (map entryLine (x :: l))))
    by (apply join_contains; now apply in_map).
  unfold relevantBlock, unlines.
  set (lines := JS.join nl (map entryLine (x :: l))) in *.
  change (JS.join nl ["RELEVANT INDEXED CONTENT:"; lines; ""; ""])
    with ("RELEVANT INDEXED CONTENT:" ++ nl ++ lines ++ nl ++ nl)%string.
  pose proof (Substring_inside _ _
                (contextPreamble (N.of_nat (List.length documentIndex))
                 ++ "RELEVANT INDEXED CONTENT:" ++ nl)%string
                (nl ++ nl ++ contextInstructions ++ query ++ contextClosing)%string
                Hj) as Hs.
  now rewrite !string_app_assoc in *.
Qed.

Lemma fallback_entry_returned (w : World) (index : list IndexEntry)
    (text keyword : string) :
  In keyword (extractBasicKeywords text) ->
  List.length index < 5 ->
  In (withScore (fallbackEntry w text)
        (relevance (queryWordsOf keyword) (fallbackEntry w text)))
     (findRelevantIndexEntries (index ++ [fallbackEntry w text]) keyword).
Proof.
  intros Hin Hlen.
  destruct (keyword_is_long_word _ _ Hin) as [Hw _].
  destruct (longWords_shape _ _ Hw) as [_ Hshape].
  destruct (token_plain _ Hshape) as [Hns _].
  apply (keyword_finds_record (index ++ [fallbackEntry w text])
           (fallbackEntry w text) keyword keyword).
  - apply in_or_app. right. now left.
  - exact Hin.
  - exact Hns.
  - reflexivity.
  - rewrite length_app. cbn [List.length]. lia.
Qed.

(** X18.  Content indexed through the fallback path reaches the prompt
    of a later question: when the answer of the model cannot be parsed and
    the index held fewer than five entries, the context built from the new
    index for a query that is one of the extracted keywords lists the new
    record, with its identifier, the first 200 characters of the content
    and its keywords. *)
Theorem X18_indexed_content_reaches_the_context :
  forall (w : World) (render st : ChatState) (text keyword : string)
         (response : option string),
    HasKey render ->
    createCompletion w (analysisPrompt text) = Some response ->
    parseAnalysis w (orEmpty response) = None ->
    In keyword (extractBasicKeywords text) ->
    List.length (documentIndex st) < 5 ->
    let st' := snd (parseAndIndexContent w render text st) in
    Substring
      ("- [" ++ newEntryId w ++ "] " ++ JS.substring0 200 text
       ++ "... (Keywords: " ++ JS.join ", " (extractBasicKeywords text) ++ ")")
      (buildEnhancedContext (documentIndex st') keyword).
Proof.
  intros w render st text keyword response Hk Hc Hp Hin Hlen st'. subst st'.
  rewrite parseAndIndexContent_index. unfold storedEntries.
  unfold HasKey in Hk. rewrite Hk, Hc, Hp.
  apply (context_lists_relevant _ _ _
           (fallback_entry_returned w (documentIndex st) text keyword Hin Hlen)).
Qed.

Lemma X18_context_witness :
  HasKey readyState
  /\ In "brown" (extractBasicKeywords foxSentence)
  /\ Substring
       ("- [" ++ newEntryId garbledWorld ++ "] "
        ++ JS.substring0 200 foxSentence
        ++ "... (Keywords: " ++ JS.join ", " (extractBasicKeywords foxSentence)
        ++ ")")
       (buildEnhancedContext
          (documentIndex (snd (parseAndIndexContent garbledWorld readyState
                                 foxSentence readyState))) "brown").
Proof.
  assert (Hk : HasKey readyState) by reflexivity.
  assert (Hin : In "brown" (extractBasicKeywords foxSentence))
    by (vm_compute; right; left; reflexivity).
  split; [exact Hk|]. split; [exact Hin|].
  apply (X18_indexed_content_reaches_the_context
           garbledWorld readyState readyState foxSentence "brown"
           (Some "Sure! Here is the analysis.") Hk eq_refl eq_refl Hin).
  cbn. lia.
Defined.

(* ------------------------------------------------------------------ *)
(** *** Ranking, on the scores of the records                          *)
(* ------------------------------------------------------------------ *)

Lemma StronglySorted_firstn (A : Type) (R : A -> A -> Prop) (n : nat)
    (l : list A) :
  StronglySorted R l -> StronglySorted R (firstn n l).
Proof.
  intros Hs. revert n. induction Hs as [|x l Hs IH Hall]; intros n.
  - destruct n; constructor.
  - destruct n as [|n]; cbn [firstn]; constructor; [apply IH|].
    rewrite Forall_forall in *. intros y Hy. apply Hall.
    now apply In_firstn in Hy.
Qed.

Lemma StronglySorted_map (A B : Type) (f : A -> B) (R : B -> B -> Prop)
    (l : list A) :
  StronglySorted (fun a b => R (f a) (f b)) l -> StronglySorted R (map f l).
Proof.
  induction 1 as [|x l Hs IH Hall]; cbn [map]; constructor; [exact IH|].
  rewrite Forall_forall in *. intros y Hy. apply in_map_iff in Hy.
  destruct Hy as [z [<- Hz]]. now apply Hall.
Qed.

Lemma StronglySorted_weaken (A : Type) (R S : A -> A -> Prop) (l : list A) :
  (forall a b, R a b -> S a b) -> StronglySorted R l -> StronglySorted S l.
Proof.
  intros H. induction 1 as [|x l Hs IH Hall]; constructor; [exact IH|].
  rewrite Forall_forall in *. intros y Hy. apply H. now apply Hall.
Qed.

Lemma positiveEntries_records (documentIndex : list IndexEntry) (query : string) :
  positiveEntries documentIndex query
  = map (fun entry => withScore entry (relevance (queryWordsOf query) entry))
        (positiveRecords documentIndex query).
Proof.
  unfold positiveEntries, positiveRecords.
  now rewrite <- (filter_map_comm _ _
                    (fun entry =>
                       withScore entry (relevance (queryWordsOf query) entry))
                    scorePositive).
Qed.

Lemma findRelevant_ranked (documentIndex : list IndexEntry) (query : string) :
  findRelevantIndexEntries documentIndex query
  = map (fun entry => withScore entry (relevance (queryWordsOf query) entry))
        (firstn 5
           (JS.sort (fun a b =>
                       JS.Num (relevance (queryWordsOf query) b
                               - relevance (queryWordsOf query) a))
                    (positiveRecords documentIndex query))).
Proof.
  unfold findRelevantIndexEntries, JS.slice0.
  fold (positiveEntries documentIndex query).
  rewrite positiveEntries_records, <- firstn_map. f_equal.
  apply sort_map. reflexivity.
Qed.

(** C2.  Whatever the query and the index, the result is the first five
    records of a ranking of the records that score above zero, each
    returned with its score: the ranking is in descending order of score,
    and the records of one score keep the order they have in the index
    (the record inserted first wins a tie).  The scores the returned
    records carry are therefore in descending order, and the result has at
    most five elements. *)
Theorem C2_top_five_of_stable_ranking :
  forall (documentIndex : list IndexEntry) (query : string),
    let score := relevance (queryWordsOf query) in
    exists ranked : list IndexEntry,
      findRelevantIndexEntries documentIndex query
      = map (fun entry => withScore entry (score entry)) (firstn 5 ranked)
      /\ Permutation ranked (positiveRecords documentIndex query)
      /\ StronglySorted (fun a b => (score b <= score a)%Z) ranked
      /\ (forall z : Z,
             filter (fun entry => Z.eqb (score entry) z) ranked
             = filter (fun entry => Z.eqb (score entry) z)
                      (positiveRecords documentIndex query))
      /\ StronglySorted CarriesNoLess
                        (findRelevantIndexEntries documentIndex query)
      /\ List.length (findRelevantIndexEntries documentIndex query) <= 5.
Proof.
  intros documentIndex query score.
  set (byRelevance := fun a b : IndexEntry => JS.Num (score b - score a)).
  exists (JS.sort byRelevance (positiveRecords documentIndex query)).
  assert (Hsorted : StronglySorted (fun a b => (score b <= score a)%Z)
                      (JS.sort byRelevance
                         (positiveRecords documentIndex query)))
    by (apply (sort_sorted _ score byRelevance); reflexivity).
  split; [apply findRelevant_ranked|].
  split; [apply sort_perm|].
  split; [exact Hsorted|].
  split; [intros z; apply (sort_stable _ score byRelevance); reflexivity|].
  split.
  - rewrite findRelevant_ranked. apply StronglySorted_map.
    apply StronglySorted_firstn.
    eapply StronglySorted_weaken; [|exact Hsorted].
    intros a b H. exists (score a), (score b). repeat split. exact H.
  - rewrite findRelevant_ranked, length_map. apply firstn_le_length.
Qed.
